(** * side-effects-linter.js: the line scanner and its pattern rules

    A shallow embedding of [src/side-effects-linter.js]: the regular
    expressions of the script with the matching rules of ECMAScript's
    [RegExp.prototype.test], the per-line loop of [analyzeFile], the reason
    selection of [explainSideEffect] and the aggregation loop of [main].

    JavaScript strings are sequences of UTF-16 code units; a line is a list
    of code units, each an [N]. *)

From Stdlib Require Import String Ascii DecimalString.
From Stdlib Require Import List Bool Arith NArith ZArith Lia Sorted.
Import ListNotations.

(* ------------------------------------------------------------------ *)
(** ** Code units and JavaScript strings *)

Module Js.

Definition char := N.
Definition jsstring := list char.

(** The code units of an ASCII literal. *)
Definition js (s : string) : jsstring :=
  map N_of_ascii (list_ascii_of_string s).

(** The double quote, U+0022. *)
Definition dquote : char := 34%N.

Local Open Scope N_scope.

Definition in_range (lo hi c : char) : bool := (lo <=? c) && (c <=? hi).

(** ECMAScript LineTerminator: LF, CR, LS, PS. *)
Definition isLineTerminator (c : char) : bool :=
  (c =? 10) || (c =? 13) || (c =? 8232) || (c =? 8233).

(** ECMAScript WhiteSpace together with LineTerminator: what [\s] matches and
    what [String.prototype.trim] strips. *)
Definition isWhiteSpace (c : char) : bool :=
  in_range 9 13 c || (c =? 32) || (c =? 160) || (c =? 5760)
  || in_range 8192 8202 c || (c =? 8232) || (c =? 8233)
  || (c =? 8239) || (c =? 8287) || (c =? 12288) || (c =? 65279).

(** [\w]: ASCII letters, digits and underscore. *)
Definition isWordChar (c : char) : bool :=
  in_range 97 122 c || in_range 65 90 c || in_range 48 57 c || (c =? 95).

(** Canonicalize of a pattern without the unicode flag: upper case, except
    that a code unit outside ASCII never maps into ASCII.  Every literal of
    the script's patterns is ASCII, so only the ASCII part of the mapping can
    make a comparison succeed; code units outside ASCII are left as they are. *)
Definition canonicalize (c : char) : char :=
  if in_range 97 122 c then (c - 32) else c.

Fixpoint dropWhile (p : char -> bool) (s : jsstring) : jsstring :=
  match s with
  | [] => []
  | c :: s' => if p c then dropWhile p s' else s
  end.

(** [String.prototype.trim]. *)
Definition trim (s : jsstring) : jsstring :=
  rev (dropWhile isWhiteSpace (rev (dropWhile isWhiteSpace s))).

End Js.
Import Js.

(* ------------------------------------------------------------------ *)
(** ** Regular expressions *)

Module Regex.

(** The members of a character class [[...]]. *)
Inductive citem : Type :=
| CChar (c : char)          (* a single character *)
| CRange (lo hi : char)     (* lo-hi *)
| CSpace                    (* \s *)
| CWord.                    (* \w *)

(** Pattern syntax.  A group, capturing or not, is the pattern it encloses:
    [test] only reports whether there is a match. *)
Inductive regex : Type :=
| Empty
| Char (c : char)           (* a literal character *)
| Dot                       (* . *)
| Class (items : list citem)
| Seq (r1 r2 : regex)
| Alt (r1 r2 : regex)
| Star (r : regex)          (* r* *)
| Bol                       (* ^ *)
| Eol                       (* $ *)
| WordB.                    (* \b *)

Definition Plus (r : regex) : regex := Seq r (Star r).
Definition Opt (r : regex) : regex := Alt r Empty.

Fixpoint Lit_chars (cs : list char) : regex :=
  match cs with
  | [] => Empty
  | [c] => Char c
  | c :: cs' => Seq (Char c) (Lit_chars cs')
  end.

(** A run of literal ASCII characters. *)
Definition Lit (s : string) : regex := Lit_chars (js s).

Fixpoint Alts (rs : list regex) : regex :=
  match rs with
  | [] => Empty
  | [r] => r
  | r :: rs' => Alt r (Alts rs')
  end.

Fixpoint Seqs (rs : list regex) : regex :=
  match rs with
  | [] => Empty
  | [r] => r
  | r :: rs' => Seq r (Seqs rs')
  end.

Definition item_matches (it : citem) (c : char) : bool :=
  match it with
  | CChar x => (x =? c)%N
  | CRange lo hi => in_range lo hi c
  | CSpace => isWhiteSpace c
  | CWord => isWordChar c
  end.

Definition class_matches (items : list citem) (c : char) : bool :=
  existsb (fun it => item_matches it c) items.

Definition char_matches (ignoreCase : bool) (x c : char) : bool :=
  if ignoreCase then (canonicalize x =? canonicalize c)%N else (x =? c)%N.

(** IsWordChar at an index that may lie outside the input. *)
Definition word_at (c : option char) : bool :=
  match c with
  | Some x => isWordChar x
  | None => false
  end.

(** A continuation receives the character just consumed (if any) and the
    rest of the input, and yields the rest of the input at the end of the
    whole match, or [None] for failure. *)
Definition cont := option char -> jsstring -> option jsstring.

Definition orelse (a b : option jsstring) : option jsstring :=
  match a with
  | Some x => Some x
  | None => b
  end.

(** RepeatMatcher for [r*]: greedy, and an iteration that consumes nothing is
    rejected.  Each iteration shortens the input, so [length s] rounds are
    enough. *)
Fixpoint star_loop (once : option char -> jsstring -> cont -> option jsstring)
    (fuel : nat) (prev : option char) (s : jsstring) (k : cont)
    : option jsstring :=
  match fuel with
  | O => k prev s
  | S fuel' =>
      orelse
        (once prev s (fun p s' =>
           if length s' <? length s then star_loop once fuel' p s' k
           else None))
        (k prev s)
  end.

(** The backtracking matcher, in continuation-passing style as in the
    language specification.  [prev] is the character before the current
    position ([None] at index 0), [s] the input from the current position. *)
Fixpoint rmatch (ignoreCase : bool) (r : regex) (prev : option char)
    (s : jsstring) (k : cont) {struct r} : option jsstring :=
  match r with
  | Empty => k prev s
  | Char x =>
      match s with
      | c :: s' => if char_matches ignoreCase x c then k (Some c) s' else None
      | [] => None
      end
  | Dot =>
      match s with
      | c :: s' => if isLineTerminator c then None else k (Some c) s'
      | [] => None
      end
  | Class items =>
      match s with
      | c :: s' => if class_matches items c then k (Some c) s' else None
      | [] => None
      end
  | Seq r1 r2 =>
      rmatch ignoreCase r1 prev s (fun p s' => rmatch ignoreCase r2 p s' k)
  | Alt r1 r2 =>
      orelse (rmatch ignoreCase r1 prev s k) (rmatch ignoreCase r2 prev s k)
  | Star r1 => star_loop (rmatch ignoreCase r1) (length s) prev s k
  | Bol =>
      match prev with
      | None => k prev s
      | Some _ => None
      end
  | Eol =>
      match s with
      | [] => k prev s
      | _ :: _ => None
      end
  | WordB =>
      if xorb (word_at prev) (word_at (hd_error s)) then k prev s else None
  end.

(** One attempt at the current position. *)
Definition match_here (ignoreCase : bool) (r : regex) (prev : option char)
    (s : jsstring) : option jsstring :=
  rmatch ignoreCase r prev s (fun _ s' => Some s').

(** The first position, from the current one onwards, where the pattern
    matches. *)
Fixpoint search (ignoreCase : bool) (r : regex) (prev : option char)
    (s : jsstring) : option jsstring :=
  match match_here ignoreCase r prev s with
  | Some e => Some e
  | None =>
      match s with
      | [] => None
      | c :: s' => search ignoreCase r (Some c) s'
      end
  end.

(** [k2] succeeds wherever [k1] does. *)
Definition extends (k1 k2 : cont) : Prop :=
  forall p s, k1 p s <> None -> k2 p s <> None.

(** A pattern that cannot match anywhere but at index 0. *)
Definition anchored (r : regex) : Prop :=
  forall i c s k, rmatch i r (Some c) s k = None.

(** The character before the position reached after consuming [cs]. *)
Definition prev_after (cs : jsstring) (prev : option char) : option char :=
  fold_left (fun _ c => Some c) cs prev.

(** The pattern matches a prefix of the input: [matches i r prev s prev' s']
    when [r] can consume, from the position with [prev] before it and [s]
    ahead, up to the position with [prev'] before it and [s'] ahead.  An
    iteration of a star consumes at least one character. *)
Inductive matches (i : bool)
    : regex -> option char -> jsstring -> option char -> jsstring -> Prop :=
| M_Empty p s : matches i Empty p s p s
| M_Char x c p s :
    char_matches i x c = true -> matches i (Char x) p (c :: s) (Some c) s
| M_Dot c p s :
    isLineTerminator c = false -> matches i Dot p (c :: s) (Some c) s
| M_Class items c p s :
    class_matches items c = true ->
    matches i (Class items) p (c :: s) (Some c) s
| M_Seq r1 r2 p s p1 s1 p2 s2 :
    matches i r1 p s p1 s1 -> matches i r2 p1 s1 p2 s2 ->
    matches i (Seq r1 r2) p s p2 s2
| M_AltL r1 r2 p s p' s' :
    matches i r1 p s p' s' -> matches i (Alt r1 r2) p s p' s'
| M_AltR r1 r2 p s p' s' :
    matches i r2 p s p' s' -> matches i (Alt r1 r2) p s p' s'
| M_Star0 r p s : matches i (Star r) p s p s
| M_StarS r p s p1 s1 p2 s2 :
    matches i r p s p1 s1 -> length s1 < length s ->
    matches i (Star r) p1 s1 p2 s2 ->
    matches i (Star r) p s p2 s2
| M_Bol s : matches i Bol None s None s
| M_Eol p : matches i Eol p [] p []
| M_WordB p s :
    xorb (word_at p) (word_at (hd_error s)) = true ->
    matches i WordB p s p s.

End Regex.
Import Regex.

(* ------------------------------------------------------------------ *)
(** ** RegExp objects *)

Module RegExp.

(** A RegExp object: its pattern, the flags that [test] reads, and the
    mutable [lastIndex] property. *)
Record t : Type := mk {
  source : regex;
  ignoreCase : bool;
  global : bool;
  sticky : bool;
  lastIndex : nat
}.

(** A regular-expression literal [/source/] or [/source/i]. *)
Definition literal (r : regex) (i : bool) : t :=
  {| source := r; ignoreCase := i; global := false; sticky := false;
     lastIndex := 0 |}.

Definition set_lastIndex (R : t) (n : nat) : t :=
  {| source := source R; ignoreCase := ignoreCase R; global := global R;
     sticky := sticky R; lastIndex := n |}.

(** The character before index [i] of [S]. *)
Definition before (S : jsstring) (i : nat) : option char :=
  match i with
  | O => None
  | Datatypes.S j => nth_error S j
  end.

(** [RegExp.prototype.test], that is RegExpBuiltinExec reduced to its
    boolean outcome: the search starts at [lastIndex] when the object is
    global or sticky and at 0 otherwise; only a global or sticky object has
    its [lastIndex] written. *)
Definition test (R : t) (S : jsstring) : bool * t :=
  let stateful := global R || sticky R in
  let start := if stateful then lastIndex R else 0 in
  if length S <? start then
    (false, if stateful then set_lastIndex R 0 else R)
  else
    let found :=
      if sticky R
      then match_here (ignoreCase R) (source R) (before S start) (skipn start S)
      else search (ignoreCase R) (source R) (before S start) (skipn start S) in
    match found with
    | None => (false, if stateful then set_lastIndex R 0 else R)
    | Some rest =>
        (true, if stateful then set_lastIndex R (length S - length rest) else R)
    end.

(** [test] on an object that nothing else can reach, such as a literal
    evaluated in place. *)
Definition test_fresh (R : t) (S : jsstring) : bool := fst (test R S).

(** Test the objects of an array in order until one matches: the shape of
    both [Array.prototype.some] with [r => r.test(line)] and a [for...of]
    loop that breaks on the first match.  The objects tested are updated in
    place. *)
Fixpoint test_until (rs : list t) (S : jsstring) : bool * list t :=
  match rs with
  | [] => (false, [])
  | R :: rs' =>
      let (b, R') := test R S in
      if b then (true, R' :: rs')
      else let (b', rs'') := test_until rs' S in (b', R' :: rs'')
  end.

End RegExp.

(* ------------------------------------------------------------------ *)
(** ** The script *)

Module Linter.

Definition chr (a : ascii) : char := N_of_ascii a.

Definition ws : regex := Class [CSpace].                       (* \s *)
Definition word : regex := Class [CWord].                      (* \w *)
Definition lower : citem := CRange (chr "a") (chr "z").
Definition upper : citem := CRange (chr "A") (chr "Z").
Definition digit : citem := CRange (chr "0") (chr "9").
Definition tab : char := 9%N.

(** Lines 28-41. *)
Definition SIDE_EFFECT_PATTERNS_init : list RegExp.t :=
  [ (* /\b(firebase|AWS|Azure|amplify|gapi|Stripe|Twilio)[\s.]*\w*\s*\(.*\)/i *)
    RegExp.literal
      (Seqs [WordB;
             Alts [Lit "firebase"; Lit "AWS"; Lit "Azure"; Lit "amplify";
                   Lit "gapi"; Lit "Stripe"; Lit "Twilio"];
             Star (Class [CSpace; CChar (chr ".")]); Star word; Star ws;
             Char (chr "("); Star Dot; Char (chr ")")])
      true;
    (* /(?:window|globalThis|global)\.[a-zA-Z0-9_]+\s*=/ *)
    RegExp.literal
      (Seqs [Alts [Lit "window"; Lit "globalThis"; Lit "global"];
             Char (chr ".");
             Plus (Class [lower; upper; digit; CChar (chr "_")]);
             Star ws; Char (chr "=")])
      false;
    (* /(?:window|document)\.(addEventListener|on[a-zA-Z]+)\s*\(/ *)
    RegExp.literal
      (Seqs [Alts [Lit "window"; Lit "document"];
             Char (chr ".");
             Alts [Lit "addEventListener";
                   Seq (Lit "on") (Plus (Class [lower; upper]))];
             Star ws; Char (chr "(")])
      false;
    (* /^[ \t]*[a-zA-Z0-9_$.]+\s*\(.*\);?\s*$/ *)
    RegExp.literal
      (Seqs [Bol;
             Star (Class [CChar (chr " "); CChar tab]);
             Plus (Class [lower; upper; digit; CChar (chr "_");
                          CChar (chr "$"); CChar (chr ".")]);
             Star ws; Char (chr "("); Star Dot; Char (chr ")");
             Opt (Char (chr ";")); Star ws; Eol])
      false;
    (* /Object\.defineProperty\s*\(\s*window[ ,]/ *)
    RegExp.literal
      (Seqs [Lit "Object"; Char (chr "."); Lit "defineProperty";
             Star ws; Char (chr "("); Star ws; Lit "window";
             Class [CChar (chr " "); CChar (chr ",")]])
      false;
    (* /(?:window|globalThis|global)\.[a-zA-Z0-9_]+\s*\./ *)
    RegExp.literal
      (Seqs [Alts [Lit "window"; Lit "globalThis"; Lit "global"];
             Char (chr ".");
             Plus (Class [lower; upper; digit; CChar (chr "_")]);
             Star ws; Char (chr ".")])
      false ].

(** Lines 44-52. *)
Definition IGNORE_PATTERNS_init : list RegExp.t :=
  [ (* /^export\s+(default\s+)?(function|class|const|let|var|async|{)/ *)
    RegExp.literal
      (Seqs [Bol; Lit "export"; Plus ws;
             Opt (Seq (Lit "default") (Plus ws));
             Alts [Lit "function"; Lit "class"; Lit "const"; Lit "let";
                   Lit "var"; Lit "async"; Char (chr "{")]])
      false;
    (* /^(function|class|const|let|var|async)\s/ *)
    RegExp.literal
      (Seqs [Bol;
             Alts [Lit "function"; Lit "class"; Lit "const"; Lit "let";
                   Lit "var"; Lit "async"];
             ws])
      false;
    (* /^\/\// *)
    RegExp.literal (Seqs [Bol; Lit "//"]) false;
    (* /^\s*\/\*/ *)
    RegExp.literal (Seqs [Bol; Star ws; Lit "/*"]) false;
    (* /^\s*\*\// *)
    RegExp.literal (Seqs [Bol; Star ws; Lit "*/"]) false;
    (* /^\s*\*/ *)
    RegExp.literal (Seqs [Bol; Star ws; Char (chr "*")]) false;
    (* /^\s*$/ *)
    RegExp.literal (Seqs [Bol; Star ws; Eol]) false ].

(** The objects created once when the module is loaded, shared by every
    call of [analyzeFile]. *)
Record Module : Type := mkModule {
  SIDE_EFFECT_PATTERNS : list RegExp.t;
  IGNORE_PATTERNS : list RegExp.t
}.

Definition module_init : Module :=
  {| SIDE_EFFECT_PATTERNS := SIDE_EFFECT_PATTERNS_init;
     IGNORE_PATTERNS := IGNORE_PATTERNS_init |}.

(** Computations that read and update the module's objects. *)
Definition Run (A : Type) : Type := Module -> A * Module.

Definition ret {A : Type} (a : A) : Run A := fun m => (a, m).

Definition bind {A B : Type} (c : Run A) (f : A -> Run B) : Run B :=
  fun m => let (a, m') := c m in f a m'.

Notation "x <- c ;; k" := (bind c (fun x => k))
  (at level 61, c at next level, right associativity).

(** [IGNORE_PATTERNS.some(r => r.test(line))], line 91. *)
Definition ignore_some (line : jsstring) : Run bool :=
  fun m =>
    let (b, rs) := RegExp.test_until (IGNORE_PATTERNS m) line in
    (b, {| SIDE_EFFECT_PATTERNS := SIDE_EFFECT_PATTERNS m;
           IGNORE_PATTERNS := rs |}).

(** The scan of [SIDE_EFFECT_PATTERNS] that stops at the first pattern
    matching the line, lines 92-93 and 100. *)
Definition side_effect_first (line : jsstring) : Run bool :=
  fun m =>
    let (b, rs) := RegExp.test_until (SIDE_EFFECT_PATTERNS m) line in
    (b, {| SIDE_EFFECT_PATTERNS := rs;
           IGNORE_PATTERNS := IGNORE_PATTERNS m |}).

(** /^(export\s+)?(async\s+)?function\s|^(export\s+)?class\s/, line 81. *)
Definition opener : RegExp.t :=
  RegExp.literal
    (Alt (Seqs [Bol; Opt (Seq (Lit "export") (Plus ws));
                Opt (Seq (Lit "async") (Plus ws)); Lit "function"; ws])
         (Seqs [Bol; Opt (Seq (Lit "export") (Plus ws)); Lit "class"; ws]))
    false.

(** /{/ and /}/, lines 85 and 86. *)
Definition open_brace : RegExp.t := RegExp.literal (Char (chr "{")) false.
Definition close_brace : RegExp.t := RegExp.literal (Char (chr "}")) false.

Definition reason_service : string :=
  "Service initialization at top level (e.g., SDK init)".
Definition reason_assignment : string :=
  "Assignment to window/global/globalThis at top level".
Definition reason_listener : string :=
  "Top-level event listener setup".
Definition reason_defineProperty : string :=
  "Defining property on window at top level".
Definition reason_mutation : string :=
  "Direct mutation of window/global/globalThis property at top level".
Definition reason_call : string :=
  "Function/method call at top level (not wrapped in function/class)".
Definition reason_fallback : string :=
  "Possible side effect".

(** Lines 107-121.  Every test is on a literal evaluated in place. *)
Definition explainSideEffect (line : jsstring) : string :=
  if RegExp.test_fresh
       (RegExp.literal
          (Seqs [WordB;
                 Alts [Lit "firebase"; Lit "AWS"; Lit "Azure"; Lit "amplify";
                       Lit "gapi"; Lit "Stripe"; Lit "Twilio"];
                 Star (Class [CSpace; CChar (chr ".")]); Star word; Star ws;
                 Char (chr "("); Star Dot; Char (chr ")")])
          true) line
  then reason_service
  else if RegExp.test_fresh
       (RegExp.literal
          (Seqs [Alts [Lit "window"; Lit "globalThis"; Lit "global"];
                 Char (chr ".");
                 Plus (Class [lower; upper; digit; CChar (chr "_")]);
                 Star ws; Char (chr "=")])
          false) line
  then reason_assignment
  else if RegExp.test_fresh
       (RegExp.literal
          (Seqs [Alts [Lit "window"; Lit "document"];
                 Char (chr ".");
                 Alts [Lit "addEventListener";
                       Seq (Lit "on") (Plus (Class [lower; upper]))];
                 Star ws; Char (chr "(")])
          false) line
  then reason_listener
  else if RegExp.test_fresh
       (RegExp.literal
          (Seqs [Lit "Object"; Char (chr "."); Lit "defineProperty";
                 Star ws; Char (chr "("); Star ws; Lit "window";
                 Class [CChar (chr " "); CChar (chr ",")]])
          false) line
  then reason_defineProperty
  else if RegExp.test_fresh
       (RegExp.literal
          (Seqs [Alts [Lit "window"; Lit "globalThis"; Lit "global"];
                 Char (chr ".");
                 Plus (Class [lower; upper; digit; CChar (chr "_")]);
                 Star ws; Char (chr ".")])
          false) line
  then reason_mutation
  else if RegExp.test_fresh
       (RegExp.literal
          (Seqs [Bol;
                 Star (Class [CChar (chr " "); CChar tab]);
                 Plus (Class [lower; upper; digit; CChar (chr "_");
                              CChar (chr "$"); CChar (chr ".")]);
                 Star ws; Char (chr "("); Star Dot; Char (chr ")");
                 Opt (Char (chr ";")); Star ws; Eol])
          false) line
  then reason_call
  else reason_fallback.

Record Finding : Type := mkFinding {
  file : string;
  line : nat;
  code : jsstring;
  reason : string
}.

(** The variables of [analyzeFile] that the loop updates, lines 72-74. *)
Record Locals : Type := mkLocals {
  inFunctionOrClass : bool;
  blockDepth : Z;
  findings : list Finding
}.

Definition locals_init : Locals :=
  {| inFunctionOrClass := false; blockDepth := 0%Z; findings := [] |}.

(** One round of the loop of lines 76-103, for the line at index [i]. *)
Definition loop_body (filePath : string) (i : nat) (ln : jsstring)
    (st : Locals) : Run Locals :=
  let trimmed := trim ln in
  let inFn :=
    if RegExp.test_fresh opener trimmed then true else inFunctionOrClass st in
  if inFn then
    let d1 :=
      if RegExp.test_fresh open_brace ln
      then (blockDepth st + 1)%Z else blockDepth st in
    let d2 := if RegExp.test_fresh close_brace ln then (d1 - 1)%Z else d1 in
    let inFn' := if (d2 <=? 0)%Z then false else inFn in
    ret {| inFunctionOrClass := inFn'; blockDepth := d2;
           findings := findings st |}
  else
    ignored <- ignore_some ln ;;
    if ignored then ret st
    else
      hit <- side_effect_first ln ;;
      if hit then
        ret {| inFunctionOrClass := inFunctionOrClass st;
               blockDepth := blockDepth st;
               findings :=
                 findings st ++
                 [ {| file := filePath; line := i + 1; code := ln;
                      reason := explainSideEffect ln |} ] |}
      else ret st.

Fixpoint for_lines (filePath : string) (i : nat) (lines : list jsstring)
    (st : Locals) : Run Locals :=
  match lines with
  | [] => ret st
  | ln :: rest =>
      st' <- loop_body filePath i ln st ;;
      for_lines filePath (S i) rest st'
  end.

(** Lines 70-105.  [lines] is what line 71 reads from the file and splits;
    the file system itself is outside the model. *)
Definition analyzeFile (filePath : string) (lines : list jsstring)
    : Run (list Finding) :=
  st <- for_lines filePath 0 lines locals_init ;;
  ret (findings st).

(** A file as [main] meets it: its path and its lines. *)
Definition File : Type := (string * list jsstring)%type.

(** The inner loop of [main], lines 128-131. *)
Fixpoint for_files (files : list File) (allFindings : list Finding)
    : Run (list Finding) :=
  match files with
  | [] => ret allFindings
  | (filePath, lines) :: rest =>
      fs <- analyzeFile filePath lines ;;
      for_files rest
        (if length fs =? 0 then allFindings else allFindings ++ fs)
  end.

(** The outer loop of [main], lines 125-132: [dirs] holds, for each entry of
    [UTILS_DIRS] in order, the files that [getAllFiles] returns for it. *)
Fixpoint for_dirs (dirs : list (list File)) (allFindings : list Finding)
    : Run (list Finding) :=
  match dirs with
  | [] => ret allFindings
  | files :: rest =>
      acc <- for_files files allFindings ;;
      for_dirs rest acc
  end.

Definition main_findings (dirs : list (list File)) : Run (list Finding) :=
  for_dirs dirs [].

(** The findings of one scan in a freshly loaded module. *)
Definition scan (filePath : string) (lines : list jsstring) : list Finding :=
  fst (analyzeFile filePath lines module_init).

End Linter.
Import Linter.

(* ------------------------------------------------------------------ *)
(** ** Derived notions used in the statements *)

(** Some pattern of the array matches the line, each tested as found. *)
Definition matches_any (rs : list RegExp.t) (ln : jsstring) : bool :=
  existsb (fun R => RegExp.test_fresh R ln) rs.

(** The line matches an ignore pattern of the script. *)
Definition ignored (ln : jsstring) : bool :=
  matches_any IGNORE_PATTERNS_init ln.

(** The line matches a side-effect pattern of the script. *)
Definition flagged (ln : jsstring) : bool :=
  matches_any SIDE_EFFECT_PATTERNS_init ln.

(** The value of [inFunctionOrClass] at line 84: the tracker judges the line
    to be inside a function or class block. *)
Definition tracked (st : Locals) (ln : jsstring) : bool :=
  if RegExp.test_fresh opener (trim ln) then true else inFunctionOrClass st.

(** The line contains the code unit [c]. *)
Definition contains (c : char) (ln : jsstring) : bool :=
  existsb (N.eqb c) ln.

(** The depth after lines 85 and 86. *)
Definition depth_after (st : Locals) (ln : jsstring) : Z :=
  let d1 :=
    if RegExp.test_fresh open_brace ln
    then (blockDepth st + 1)%Z else blockDepth st in
  if RegExp.test_fresh close_brace ln then (d1 - 1)%Z else d1.

(** The locals after one round of the loop in a freshly loaded module. *)
Definition step (filePath : string) (i : nat) (ln : jsstring) (st : Locals)
    : Locals :=
  fst (loop_body filePath i ln st module_init).

(** The finding that line 94 pushes for the line at index [i]. *)
Definition finding_for (filePath : string) (i : nat) (ln : jsstring)
    : Finding :=
  {| file := filePath; line := i + 1; code := ln;
     reason := explainSideEffect ln |}.

(** The locals after the loop has run over [lines], numbered from index [i],
    in a freshly loaded module. *)
Definition run (filePath : string) (i : nat) (lines : list jsstring)
    (st : Locals) : Locals :=
  fst (for_lines filePath i lines st module_init).

(** The locals when the loop of [analyzeFile] reaches index [k]. *)
Definition locals_at (filePath : string) (lines : list jsstring) (k : nat)
    : Locals :=
  run filePath 0 (firstn k lines) locals_init.

(** A finding pushed while the loop ran over [lines] from index [i] and
    locals [st]: it records a line met outside a tracked block, matching no
    ignore pattern and some side-effect pattern. *)
Definition emitted (filePath : string) (lines : list jsstring) (i : nat)
    (st : Locals) (f : Finding) : Prop :=
  exists k ln,
    nth_error lines k = Some ln /\
    f = finding_for filePath (i + k) ln /\
    tracked (run filePath i (firstn k lines) st) ln = false /\
    ignored ln = false /\
    flagged ln = true.

(** Outside a tracked block the depth is never positive. *)
Definition settled (st : Locals) : Prop :=
  inFunctionOrClass st = false -> (blockDepth st <= 0)%Z.

(** The locals after the round that meets [ln] right after the lines
    [pre] of a file. *)
Definition after_line (filePath : string) (pre : list jsstring)
    (ln : jsstring) : Locals :=
  step filePath (length pre) ln (run filePath 0 pre locals_init).

(** The namespaces of the service-initialization pattern, line 30. *)
Definition sdk_keywords : list string :=
  ["firebase"; "AWS"; "Azure"; "amplify"; "gapi"; "Stripe"; "Twilio"]%string.

(** [cs] spells [K] up to the case of its letters. *)
Fixpoint spells (K cs : jsstring) : bool :=
  match K, cs with
  | [], [] => true
  | x :: K', c :: cs' => char_matches true x c && spells K' cs'
  | _, _ => false
  end.

(** The pattern of the service-initialization rule. *)
Definition sdk_pattern : regex :=
  match SIDE_EFFECT_PATTERNS_init with
  | R :: _ => RegExp.source R
  | [] => Empty
  end.

(** The last character of a text, if any. *)
Definition last_char (s : jsstring) : option char := prev_after s None.

(** A line that holds a call: the text [pre], then a called name made of
    [kw] and [w], then the parenthesised arguments [args], then [post]. *)
Definition call_line (pre kw w args post : jsstring) : jsstring :=
  pre ++ kw ++ w ++ [chr "("] ++ args ++ [chr ")"] ++ post.





(** No object of the module keeps a position between two tests. *)
Definition stateless (R : RegExp.t) : Prop :=
  RegExp.global R = false /\ RegExp.sticky R = false.

Definition stateless_module (m : Module) : Prop :=
  Forall stateless (SIDE_EFFECT_PATTERNS m) /\
  Forall stateless (IGNORE_PATTERNS m).

Definition c1_line : jsstring :=
  js "AWS.config.update({ region: " ++ [dquote] ++ js "us-east-1"
  ++ [dquote] ++ js " });".

(* ------------------------------------------------------------------ *)
(** ** Reading the lines of a file *)

Definition LF : char := 10%N.
Definition CR : char := 13%N.

(** /\r?\n/, the separator of line 71. *)
Definition newline : RegExp.t :=
  RegExp.literal (Seq (Opt (Char CR)) (Char LF)) false.

(** The loop of [RegExp.prototype[Symbol.split]] for a pattern without
    capturing groups and a call without limit.  [piece] holds the characters
    from the end [p] of the last separator to the current index [q], [s] the
    input from [q] on.  A match at [q] that ends at [p] is skipped; any
    other match closes the piece.  Every round either moves [q] forward or
    empties the piece, so twice the length of the input is fuel enough. *)
Fixpoint split_loop (i : bool) (r : regex) (fuel : nat) (piece : jsstring)
    (prev : option char) (s : jsstring) : list jsstring :=
  match fuel with
  | O => [piece ++ s]
  | S fuel' =>
      match s with
      | [] => [piece]
      | c :: s' =>
          match match_here i r prev s with
          | None => split_loop i r fuel' (piece ++ [c]) (Some c) s'
          | Some rest =>
              if (length rest =? length s) && (length piece =? 0)
              then split_loop i r fuel' (piece ++ [c]) (Some c) s'
              else
                piece ::
                split_loop i r fuel' []
                  (prev_after (firstn (length s - length rest) s) prev) rest
          end
      end
  end.

(** [S.split(R)]: the empty string gives no piece when the pattern matches
    it and one empty piece otherwise.  The splitter is a fresh object, so
    [R] itself is not written. *)
Definition split (R : RegExp.t) (S : jsstring) : list jsstring :=
  match S with
  | [] =>
      match match_here (RegExp.ignoreCase R) (RegExp.source R) None [] with
      | Some _ => []
      | None => [[]]
      end
  | _ :: _ =>
      split_loop (RegExp.ignoreCase R) (RegExp.source R)
        (2 * length S + 1) [] None S
  end.

(** Where the separator of line 71 matches: the rest of the input after a
    line feed, or after a carriage return and a line feed. *)
Definition line_end (s : jsstring) : option jsstring :=
  match s with
  | [] => None
  | c :: s' =>
      if (c =? LF)%N then Some s'
      else if (c =? CR)%N then
        match s' with
        | d :: s'' => if (d =? LF)%N then Some s'' else None
        | [] => None
        end
      else None
  end.

(** Line 71, applied to the text that [readFileSync] returns. *)
Definition lines_of (content : jsstring) : list jsstring :=
  split newline content.

(** [Array.prototype.join] with a line feed as separator. *)
Fixpoint join_lines (ls : list jsstring) : jsstring :=
  match ls with
  | [] => []
  | [l] => l
  | l :: ls' => l ++ LF :: join_lines ls'
  end.

(** The text without the carriage returns that stand right before a line
    feed. *)
Fixpoint strip_CR (s : jsstring) : jsstring :=
  match s with
  | [] => []
  | c :: s' =>
      if (c =? CR)%N && (match s' with d :: _ => (d =? LF)%N | [] => false end)
      then strip_CR s'
      else c :: strip_CR s'
  end.

(** The text with every line feed turned into carriage return, line feed. *)
Definition to_CRLF (s : jsstring) : jsstring :=
  flat_map (fun c => if (c =? LF)%N then [CR; LF] else [c]) s.

(** The pieces of a text split at line ends, by structural recursion. *)
Fixpoint pieces (piece s : jsstring) : list jsstring :=
  match s with
  | [] => [piece]
  | c :: s' =>
      if (c =? LF)%N then piece :: pieces [] s'
      else if (c =? CR)%N
                && (match s' with d :: _ => (d =? LF)%N | [] => false end)
      then pieces piece s'
      else pieces (piece ++ [c]) s'
  end.

(* ------------------------------------------------------------------ *)
(** ** Collecting the files, lines 55-68 *)

(** What [statSync] and [readdirSync] show of a path: a file, or a directory
    with its entries in the order [readdirSync] lists them.  Errors of the
    file system (permissions, links that do not resolve) are outside the
    model. *)
#[local] Set Warnings "-register-all".
Inductive Entry : Type :=
| EFile
| EDir (entries : list (string * Entry)).
#[local] Set Warnings "register-all".

(** [String.prototype.endsWith] without a position. *)
Definition endsWith (s suffix : string) : bool :=
  let cs := list_ascii_of_string s in
  let suf := list_ascii_of_string suffix in
  if length cs <? length suf then false
  else
    if list_eq_dec ascii_dec (skipn (length cs - length suf) cs) suf
    then true else false.

(** The test of line 63 on the name of an entry. *)
Definition is_source (name : string) : bool :=
  endsWith name ".js" || endsWith name ".ts".

(** The loop of lines 58-66 over the entries of the directory [dir];
    [join] is [path.join] and [rec] the recursive call of line 62. *)
Fixpoint walk_loop (join : string -> string -> string)
    (rec : string -> Entry -> list string) (dir : string)
    (es : list (string * Entry)) (results : list string) : list string :=
  match es with
  | [] => results
  | (name, child) :: es' =>
      let filePath := join dir name in
      match child with
      | EDir _ =>
          walk_loop join rec dir es' (results ++ rec filePath child)
      | EFile =>
          if is_source name
          then walk_loop join rec dir es' (results ++ [filePath])
          else walk_loop join rec dir es' results
      end
  end.

(** Lines 56-67 on an existing directory. *)
Fixpoint walk (join : string -> string -> string) (dir : string)
    (e : Entry) {struct e} : list string :=
  match e with
  | EFile => []
  | EDir entries => walk_loop join (walk join) dir entries []
  end.

(** [getAllFiles(dir)], where [node] is what the file system holds at
    [dir]: nothing (line 57 returns the empty list), a directory, or a file,
    on which [readdirSync] throws. *)
Definition getAllFiles (join : string -> string -> string) (dir : string)
    (node : option Entry) : option (list string) :=
  match node with
  | None => Some []
  | Some EFile => None
  | Some (EDir entries) => Some (walk join dir (EDir entries))
  end.

(** What one entry of a directory adds to [results]. *)
Definition visit (join : string -> string -> string)
    (rec : string -> Entry -> list string) (dir : string)
    (ne : string * Entry) : list string :=
  match snd ne with
  | EDir _ => rec (join dir (fst ne)) (snd ne)
  | EFile => if is_source (fst ne) then [join dir (fst ne)] else []
  end.

(** Lines 19-25. *)
Definition UTILS_DIRS : list string :=
  ["src/utils/"; "src/services/"; "src/modules/"; "utils/"; "lib/"]%string.

(** What the file system shows at the path [dir] when it holds [node]
    under that name: a path that ends in a slash resolves to a directory or
    to nothing, so where a regular file stands [existsSync] is false. *)
Definition seen_at (dir : string) (node : option Entry) : option Entry :=
  match node with
  | Some EFile => if endsWith dir "/" then None else Some EFile
  | _ => node
  end.

(** The calls of [getAllFiles] that [main] makes, with the lines that
    [analyzeFile] reads for each file found: [root] is what the file system
    holds under the name of each directory of [dirs], [read] the text of a
    file.  [None] when a call throws. *)
Fixpoint files_of_dirs (join : string -> string -> string)
    (root : string -> option Entry) (read : string -> jsstring)
    (dirs : list string) : option (list (list File)) :=
  match dirs with
  | [] => Some []
  | dir :: rest =>
      match getAllFiles join dir (seen_at dir (root dir)) with
      | None => None
      | Some files =>
          match files_of_dirs join root read rest with
          | None => None
          | Some more =>
              Some (map (fun p => (p, lines_of (read p))) files :: more)
          end
      end
  end.

(** The flag of the tracker says whether the depth is positive. *)
Definition flag_is_depth (st : Locals) : Prop :=
  inFunctionOrClass st = (0 <? blockDepth st)%Z.

(** The entry reached from [e] through the names [names]. *)
Inductive reaches : Entry -> list string -> Entry -> Prop :=
| reaches_here e : reaches e [] e
| reaches_down entries name child names e :
    In (name, child) entries ->
    reaches child names e ->
    reaches (EDir entries) (name :: names) e.

(* ------------------------------------------------------------------ *)
(** ** The report, lines 134-147 *)

(** The decimal digits of a line number, as a template literal prints it. *)
Definition number_to_string (n : nat) : jsstring :=
  js (NilEmpty.string_of_uint (Nat.to_uint n)).

Definition no_findings_message : jsstring :=
  js "No top-level side effects detected.".

Definition report_header : jsstring :=
  js "Side Effect Linter Report" ++ [LF]
  ++ js "========================" ++ [LF].

(** What the two statements of lines 143 and 144 append for one finding. *)
Definition report_block (f : Finding) : jsstring :=
  ([LF] ++ js "File: " ++ js (file f) ++ [LF]
   ++ js "Line: " ++ number_to_string (line f) ++ [LF]
   ++ js "Code: " ++ code f ++ [LF]
   ++ js "Reason: " ++ js (reason f) ++ [LF])
  ++ (js "Suggestion: Move this code into an exported function or class method."
      ++ [LF]).

(** The loop of lines 142-145. *)
Fixpoint report_loop (fs : list Finding) (report : jsstring) : jsstring :=
  match fs with
  | [] => report
  | f :: fs' => report_loop fs' (report ++ report_block f)
  end.

(** What [main] prints and what it writes to [side-effect-report.txt]. *)
Record Output : Type := mkOutput {
  console : jsstring;
  report_file : jsstring
}.

(** Lines 134-147. *)
Definition output_of (allFindings : list Finding) : Output :=
  if length allFindings =? 0 then
    {| console := no_findings_message;
       report_file := no_findings_message ++ [LF] |}
  else
    let report := report_loop allFindings report_header in
    {| console := report; report_file := report |}.

(** [main], lines 124-148, on the files that [getAllFiles] returned for the
    entries of [UTILS_DIRS]. *)
Definition main (dirs : list (list File)) : Run Output :=
  allFindings <- main_findings dirs ;;
  ret (output_of allFindings).

(** The run of the script: what it prints and writes, or [None] when it
    throws. *)
Definition program (join : string -> string -> string)
    (root : string -> option Entry) (read : string -> jsstring)
    : option Output :=
  match files_of_dirs join root read UTILS_DIRS with
  | None => None
  | Some dirs => Some (fst (main dirs module_init))
  end.

(** A finding with its line number moved down by [d] lines. *)
Definition shift_line (d : nat) (f : Finding) : Finding :=
  {| file := file f; line := d + line f; code := code f;
     reason := reason f |}.

(* ------------------------------------------------------------------ *)
(** ** RegExp objects without the global and sticky flags *)

Section Stateless.

Lemma test_stateless (R : RegExp.t) (S : jsstring) :
  stateless R -> RegExp.test R S = (RegExp.test_fresh R S, R).
Proof.
  intros [Hg Hs]. unfold RegExp.test_fresh, RegExp.test.
  rewrite Hg, Hs. simpl.
  destruct (search (RegExp.ignoreCase R) (RegExp.source R) None S);
    reflexivity.
Qed.

Lemma test_until_stateless (rs : list RegExp.t) (S : jsstring) :
  Forall stateless rs -> RegExp.test_until rs S = (matches_any rs S, rs).
Proof.
  induction 1 as [|R rs HR Hrs IH]; simpl; [reflexivity|].
  rewrite (test_stateless R S HR), IH.
  destruct (RegExp.test_fresh R S); reflexivity.
Qed.

Lemma module_init_stateless : stateless_module module_init.
Proof.
  split; simpl; repeat constructor.
Qed.

Lemma ignore_some_stateless (m : Module) (ln : jsstring) :
  stateless_module m ->
  ignore_some ln m = (matches_any (IGNORE_PATTERNS m) ln, m).
Proof.
  intros [_ H]. unfold ignore_some.
  rewrite (test_until_stateless _ ln H). destruct m; reflexivity.
Qed.

Lemma side_effect_first_stateless (m : Module) (ln : jsstring) :
  stateless_module m ->
  side_effect_first ln m = (matches_any (SIDE_EFFECT_PATTERNS m) ln, m).
Proof.
  intros [H _]. unfold side_effect_first.
  rewrite (test_until_stateless _ ln H). destruct m; reflexivity.
Qed.

End Stateless.

(* ------------------------------------------------------------------ *)
(** ** One round of the loop *)

Section LoopBody.

Variable filePath : string.
Variable i : nat.
Variable ln : jsstring.
Variable st : Locals.

Lemma loop_body_tracked (m : Module) :
  tracked st ln = true ->
  loop_body filePath i ln st m =
  ({| inFunctionOrClass := negb (depth_after st ln <=? 0)%Z;
      blockDepth := depth_after st ln;
      findings := findings st |}, m).
Proof.
  unfold tracked, loop_body, depth_after, ret. intros H.
  destruct (RegExp.test_fresh opener (trim ln)).
  - cbv zeta. destruct (_ <=? 0)%Z; reflexivity.
  - rewrite H. cbv zeta. destruct (_ <=? 0)%Z; reflexivity.
Qed.

Lemma loop_body_untracked (m : Module) :
  stateless_module m ->
  tracked st ln = false ->
  loop_body filePath i ln st m =
  (if matches_any (IGNORE_PATTERNS m) ln then st
   else if matches_any (SIDE_EFFECT_PATTERNS m) ln then
     {| inFunctionOrClass := inFunctionOrClass st;
        blockDepth := blockDepth st;
        findings :=
          findings st ++ [finding_for filePath i ln] |}
   else st, m).
Proof.
  unfold tracked, loop_body. intros Hm H.
  destruct (RegExp.test_fresh opener (trim ln)); [discriminate|].
  rewrite H. unfold bind, ret.
  rewrite (ignore_some_stateless m ln Hm).
  destruct (matches_any (IGNORE_PATTERNS m) ln); [reflexivity|].
  rewrite (side_effect_first_stateless m ln Hm).
  destruct (matches_any (SIDE_EFFECT_PATTERNS m) ln); reflexivity.
Qed.

Lemma loop_body_module (m : Module) :
  stateless_module m -> snd (loop_body filePath i ln st m) = m.
Proof.
  intros Hm. destruct (tracked st ln) eqn:T.
  - rewrite (loop_body_tracked m T). reflexivity.
  - rewrite (loop_body_untracked m Hm T). reflexivity.
Qed.

End LoopBody.

(* ------------------------------------------------------------------ *)
(** ** The loop over the lines of a file *)

Section Loop.

Variable filePath : string.

Lemma step_tracked (i : nat) (ln : jsstring) (st : Locals) :
  tracked st ln = true ->
  step filePath i ln st =
  {| inFunctionOrClass := negb (depth_after st ln <=? 0)%Z;
     blockDepth := depth_after st ln;
     findings := findings st |}.
Proof.
  intros T. unfold step. rewrite (loop_body_tracked filePath i ln st _ T). reflexivity.
Qed.

Lemma step_untracked (i : nat) (ln : jsstring) (st : Locals) :
  tracked st ln = false ->
  step filePath i ln st =
  if ignored ln then st
  else if flagged ln then
    {| inFunctionOrClass := inFunctionOrClass st;
       blockDepth := blockDepth st;
       findings := findings st ++ [finding_for filePath i ln] |}
  else st.
Proof.
  intros T. unfold step.
  rewrite (loop_body_untracked filePath i ln st _ module_init_stateless T). reflexivity.
Qed.

Lemma for_lines_module (lines : list jsstring) :
  forall i st m,
    stateless_module m -> snd (for_lines filePath i lines st m) = m.
Proof.
  induction lines as [|ln rest IH]; intros i st m Hm; simpl; [reflexivity|].
  unfold bind.
  pose proof (loop_body_module filePath i ln st m Hm) as E.
  destruct (loop_body filePath i ln st m) as [st' m']. simpl in E. subst m'.
  apply IH, Hm.
Qed.

Lemma run_nil (i : nat) (st : Locals) : run filePath i [] st = st.
Proof. reflexivity. Qed.

Lemma run_cons (i : nat) (ln : jsstring) (rest : list jsstring)
    (st : Locals) :
  run filePath i (ln :: rest) st =
  run filePath (S i) rest (step filePath i ln st).
Proof.
  unfold run, step. simpl. unfold bind.
  pose proof (loop_body_module filePath i ln st _ module_init_stateless) as E.
  destruct (loop_body filePath i ln st module_init) as [st' m'].
  simpl in E. subst m'. reflexivity.
Qed.

Lemma run_app (l1 l2 : list jsstring) :
  forall i st,
    run filePath i (l1 ++ l2) st =
    run filePath (i + length l1) l2 (run filePath i l1 st).
Proof.
  induction l1 as [|ln l1 IH]; intros i st; simpl.
  - rewrite Nat.add_0_r. reflexivity.
  - rewrite !run_cons, IH. f_equal. lia.
Qed.

Lemma step_findings (i : nat) (ln : jsstring) (st : Locals) :
  findings (step filePath i ln st) =
  findings st ++
  (if tracked st ln then []
   else if ignored ln then []
   else if flagged ln then [finding_for filePath i ln] else []).
Proof.
  destruct (tracked st ln) eqn:T.
  - rewrite (step_tracked _ _ _ T). simpl. now rewrite app_nil_r.
  - rewrite (step_untracked _ _ _ T).
    destruct (ignored ln); [now rewrite app_nil_r|].
    destruct (flagged ln); [reflexivity | now rewrite app_nil_r].
Qed.

Lemma emitted_later (i : nat) (ln : jsstring) (rest : list jsstring)
    (st : Locals) (f : Finding) :
  emitted filePath rest (S i) (step filePath i ln st) f ->
  emitted filePath (ln :: rest) i st f.
Proof.
  intros (k & l & Hk & Hf & Ht & Hi & Hs).
  exists (S k), l. repeat split; try assumption.
  - rewrite Hf. f_equal. lia.
  - simpl firstn. rewrite run_cons. exact Ht.
Qed.

(** What the loop adds to [findings]. *)
Lemma run_findings (lines : list jsstring) :
  forall i st,
  exists new,
    findings (run filePath i lines st) = findings st ++ new /\
    Forall (emitted filePath lines i st) new /\
    Forall (fun f => i < line f) new /\
    StronglySorted lt (map line new).
Proof.
  induction lines as [|ln rest IH]; intros i st.
  - exists []. rewrite run_nil, app_nil_r. repeat split; constructor.
  - destruct (IH (S i) (step filePath i ln st)) as (new & E & Hem & Hlt & Hso).
    rewrite run_cons, E, step_findings.
    assert (Hem' : Forall (emitted filePath (ln :: rest) i st) new).
    { eapply Forall_impl; [|exact Hem]. intros f. apply emitted_later. }
    assert (Hlt' : Forall (fun f => i < line f) new).
    { eapply Forall_impl; [|exact Hlt]. simpl. intros f. lia. }
    destruct (tracked st ln) eqn:T;
      [|destruct (ignored ln) eqn:I; [|destruct (flagged ln) eqn:F]];
      try (exists new; rewrite app_nil_r; repeat split; assumption).
    exists (finding_for filePath i ln :: new). rewrite <- app_assoc.
    repeat split.
    + constructor; [|assumption].
      exists 0, ln. rewrite Nat.add_0_r. simpl firstn. rewrite run_nil.
      repeat split; assumption.
    + constructor; [simpl; lia | assumption].
    + simpl. constructor; [assumption|].
      rewrite Forall_map. eapply Forall_impl; [|exact Hlt].
      simpl. intros f. lia.
Qed.

Lemma scan_run (lines : list jsstring) :
  scan filePath lines = findings (run filePath 0 lines locals_init).
Proof.
  unfold scan, analyzeFile, run, bind, ret.
  destruct (for_lines filePath 0 lines locals_init module_init).
  reflexivity.
Qed.

Lemma analyzeFile_stateless (lines : list jsstring) (m : Module) :
  stateless_module m ->
  snd (analyzeFile filePath lines m) = m.
Proof.
  intros Hm. unfold analyzeFile, bind, ret.
  pose proof (for_lines_module lines 0 locals_init m Hm) as E.
  destruct (for_lines filePath 0 lines locals_init m). exact E.
Qed.

(** Every finding of a scan records a line of the file met outside a tracked
    block that no ignore pattern and some side-effect pattern matches. *)
Lemma scan_emitted (lines : list jsstring) :
  Forall (emitted filePath lines 0 locals_init) (scan filePath lines).
Proof.
  rewrite scan_run.
  destruct (run_findings lines 0 locals_init) as (new & E & Hem & _).
  rewrite E. exact Hem.
Qed.

Lemma scan_sorted (lines : list jsstring) :
  StronglySorted lt (map line (scan filePath lines)).
Proof.
  rewrite scan_run.
  destruct (run_findings lines 0 locals_init) as (new & E & _ & _ & Hso).
  rewrite E. exact Hso.
Qed.

End Loop.

(* ------------------------------------------------------------------ *)
(** ** The matcher against the declarative reading of a pattern *)

Section Matcher.

Variable ic : bool.

Lemma orelse_some (a b : option jsstring) :
  orelse a b <> None <-> a <> None \/ b <> None.
Proof.
  destruct a, b; simpl; split; intros H; try tauto;
    try (left; discriminate); try (right; discriminate); discriminate.
Qed.

Lemma star_loop_mono
    (once : option char -> jsstring -> cont -> option jsstring) :
  (forall p s k1 k2, extends k1 k2 ->
     once p s k1 <> None -> once p s k2 <> None) ->
  forall fuel p s k1 k2, extends k1 k2 ->
    star_loop once fuel p s k1 <> None -> star_loop once fuel p s k2 <> None.
Proof.
  intros Honce. induction fuel as [|fuel IH]; intros p s k1 k2 Hk; simpl.
  - apply Hk.
  - rewrite !orelse_some. intros [H|H]; [left | right; now apply Hk].
    revert H. apply Honce. intros p' s'.
    destruct (length s' <? length s); [|tauto]. now apply IH.
Qed.

Lemma rmatch_mono (r : regex) :
  forall p s k1 k2, extends k1 k2 ->
    rmatch ic r p s k1 <> None -> rmatch ic r p s k2 <> None.
Proof.
  induction r; intros p s k1 k2 Hk; simpl.
  - apply Hk.
  - destruct s as [|x s]; [tauto|]. destruct (char_matches ic c x); [apply Hk | tauto].
  - destruct s as [|x s]; [tauto|]. destruct (isLineTerminator x); [tauto | apply Hk].
  - destruct s as [|x s]; [tauto|]. destruct (class_matches items x); [apply Hk | tauto].
  - apply IHr1. intros p' s'. now apply IHr2.
  - rewrite !orelse_some. intros [H|H]; [left; revert H; now apply IHr1 | right; revert H; now apply IHr2].
  - now apply star_loop_mono.
  - destruct p; [tauto | apply Hk].
  - destruct s; [apply Hk | tauto].
  - destruct (xorb _ _); [apply Hk | tauto].
Qed.

Lemma star_loop_fuel (r : regex) :
  forall f f' p s k, f <= f' ->
    star_loop (rmatch ic r) f p s k <> None ->
    star_loop (rmatch ic r) f' p s k <> None.
Proof.
  induction f as [|f IH]; intros f' p s k Hle; simpl.
  - intros H. destruct f'; simpl; [exact H|].
    rewrite orelse_some. now right.
  - destruct f' as [|f']; [lia|]. simpl.
    rewrite !orelse_some. intros [H|H]; [left | now right].
    revert H. apply rmatch_mono. intros p' s'.
    destruct (length s' <? length s); [|tauto]. apply IH. lia.
Qed.

(** Completeness: whatever the pattern can consume, the matcher finds, as
    long as the continuation accepts it. *)
Lemma rmatch_complete (r : regex) (p : option char) (s : jsstring)
    (p' : option char) (s' : jsstring) :
  matches ic r p s p' s' ->
  forall k, k p' s' <> None -> rmatch ic r p s k <> None.
Proof.
  induction 1; intros k Hk; simpl.
  - exact Hk.
  - rewrite H. exact Hk.
  - rewrite H. exact Hk.
  - rewrite H. exact Hk.
  - apply IHmatches1. now apply IHmatches2.
  - rewrite orelse_some. left. now apply IHmatches.
  - rewrite orelse_some. right. now apply IHmatches.
  - destruct (length s); simpl; [exact Hk|]. rewrite orelse_some. now right.
  - destruct (length s) as [|n] eqn:E; [lia|]. simpl.
    rewrite orelse_some. left. apply IHmatches1.
    rewrite E. destruct (Nat.ltb_spec (length s1) (S n)) as [_|]; [|lia].
    apply star_loop_fuel with (f := length s1); [lia|].
    apply (IHmatches2 k Hk).
  - exact Hk.
  - exact Hk.
  - rewrite H. exact Hk.
Qed.

Lemma star_loop_sound (r : regex) :
  (forall p s k, rmatch ic r p s k <> None ->
     exists p' s', matches ic r p s p' s' /\ k p' s' <> None) ->
  forall fuel p s k,
    star_loop (rmatch ic r) fuel p s k <> None ->
    exists p' s', matches ic (Star r) p s p' s' /\ k p' s' <> None.
Proof.
  intros Hr. induction fuel as [|fuel IH]; intros p s k; simpl.
  - intros H. exists p, s. split; [constructor | exact H].
  - rewrite orelse_some. intros [H|H].
    + apply Hr in H. destruct H as (p1 & s1 & M1 & H).
      destruct (Nat.ltb_spec (length s1) (length s)) as [L|]; [|tauto].
      apply IH in H. destruct H as (p2 & s2 & M2 & H).
      exists p2, s2. split; [|exact H]. eapply M_StarS; eassumption.
    + exists p, s. split; [constructor | exact H].
Qed.

(** Soundness: a success of the matcher is a match of the pattern. *)
Lemma rmatch_sound (r : regex) :
  forall p s k, rmatch ic r p s k <> None ->
    exists p' s', matches ic r p s p' s' /\ k p' s' <> None.
Proof.
  induction r; intros p s k; simpl.
  - intros H. exists p, s. split; [constructor | exact H].
  - destruct s as [|x s]; [tauto|].
    destruct (char_matches ic c x) eqn:E; [|tauto].
    intros H. exists (Some x), s. split; [now constructor | exact H].
  - destruct s as [|x s]; [tauto|].
    destruct (isLineTerminator x) eqn:E; [tauto|].
    intros H. exists (Some x), s. split; [now constructor | exact H].
  - destruct s as [|x s]; [tauto|].
    destruct (class_matches items x) eqn:E; [|tauto].
    intros H. exists (Some x), s. split; [now constructor | exact H].
  - intros H. apply IHr1 in H. destruct H as (p1 & s1 & M1 & H).
    apply IHr2 in H. destruct H as (p2 & s2 & M2 & H).
    exists p2, s2. split; [econstructor; eassumption | exact H].
  - rewrite orelse_some. intros [H|H].
    + apply IHr1 in H. destruct H as (p1 & s1 & M1 & H).
      exists p1, s1. split; [now apply M_AltL | exact H].
    + apply IHr2 in H. destruct H as (p1 & s1 & M1 & H).
      exists p1, s1. split; [now apply M_AltR | exact H].
  - now apply star_loop_sound.
  - destruct p; [tauto|].
    intros H. exists None, s. split; [constructor | exact H].
  - destruct s; [|tauto].
    intros H. exists p, []. split; [constructor | exact H].
  - destruct (xorb _ _) eqn:E; [|tauto].
    intros H. exists p, s. split; [now constructor | exact H].
Qed.

Lemma match_here_iff (r : regex) (p : option char) (s : jsstring) :
  match_here ic r p s <> None <-> exists p' s', matches ic r p s p' s'.
Proof.
  unfold match_here. split.
  - intros H. apply rmatch_sound in H. destruct H as (p' & s' & M & _).
    now exists p', s'.
  - intros (p' & s' & M). eapply rmatch_complete; [exact M | discriminate].
Qed.

(** [search] succeeds exactly when the pattern matches at some position. *)
Lemma search_iff (r : regex) (s : jsstring) :
  forall p,
    search ic r p s <> None <->
    exists pre rest,
      s = pre ++ rest /\ match_here ic r (prev_after pre p) rest <> None.
Proof.
  induction s as [|c s IH]; intros p; simpl.
  - destruct (match_here ic r p []) eqn:E; split.
    + intros _. exists [], []. simpl. rewrite E. split; [reflexivity | discriminate].
    + discriminate.
    + tauto.
    + intros (pre & rest & Hs & H).
      symmetry in Hs. apply app_eq_nil in Hs. destruct Hs; subst.
      simpl in H. congruence.
  - destruct (match_here ic r p (c :: s)) eqn:E; split.
    + intros _. exists [], (c :: s). simpl. rewrite E.
      split; [reflexivity | discriminate].
    + discriminate.
    + intros H. apply IH in H. destruct H as (pre & rest & Hs & H).
      exists (c :: pre), rest. subst s. split; [reflexivity | exact H].
    + intros (pre & rest & Hs & H). destruct pre as [|c' pre].
      * simpl in *. subst rest. congruence.
      * simpl in Hs. injection Hs as -> ->. apply IH.
        exists pre, rest. split; [reflexivity | exact H].
Qed.

End Matcher.

(** A literal without flags is found exactly where [search] finds it. *)
Lemma test_fresh_literal (r : regex) (i : bool) (ln : jsstring) :
  RegExp.test_fresh (RegExp.literal r i) ln = true <->
  search i r None ln <> None.
Proof.
  unfold RegExp.test_fresh.
  rewrite (test_stateless (RegExp.literal r i) ln (conj eq_refl eq_refl)).
  unfold RegExp.test_fresh, RegExp.test. simpl.
  destruct (search i r None ln); simpl; split; congruence.
Qed.

(* ------------------------------------------------------------------ *)
(** ** Facts about single patterns and about the tracker *)

Lemma search_Char (c : char) (s : jsstring) :
  forall p,
    match search false (Char c) p s with Some _ => true | None => false end
    = contains c s.
Proof.
  induction s as [|x s IH]; intros p; [reflexivity|].
  simpl. unfold match_here. simpl.
  destruct (c =? x)%N; [reflexivity | apply IH].
Qed.

(** [/c/.test(line)] for a single literal character is a presence check. *)
Lemma test_fresh_Char (c : char) (ln : jsstring) :
  RegExp.test_fresh (RegExp.literal (Char c) false) ln = contains c ln.
Proof.
  unfold RegExp.test_fresh, RegExp.test. simpl.
  rewrite <- (search_Char c ln None).
  destruct (search false (Char c) None ln); reflexivity.
Qed.

Lemma depth_after_presence (st : Locals) (ln : jsstring) :
  depth_after st ln =
  (blockDepth st + (if contains (chr "{") ln then 1 else 0)
   - (if contains (chr "}") ln then 1 else 0))%Z.
Proof.
  unfold depth_after, open_brace, close_brace.
  rewrite !test_fresh_Char.
  destruct (contains (chr "{") ln), (contains (chr "}") ln); lia.
Qed.

Lemma step_settled (filePath : string) (i : nat) (ln : jsstring)
    (st : Locals) :
  settled st -> settled (step filePath i ln st).
Proof.
  intros Hst. destruct (tracked st ln) eqn:T.
  - rewrite (step_tracked _ _ _ _ T). unfold settled. simpl.
    destruct (Z.leb_spec (depth_after st ln) 0); [lia | discriminate].
  - rewrite (step_untracked _ _ _ _ T).
    destruct (ignored ln); [exact Hst|]. destruct (flagged ln); exact Hst.
Qed.

Lemma run_settled (filePath : string) (lines : list jsstring) :
  forall i st, settled st -> settled (run filePath i lines st).
Proof.
  induction lines as [|ln rest IH]; intros i st Hst.
  - exact Hst.
  - rewrite run_cons. apply IH, step_settled, Hst.
Qed.

Lemma locals_init_settled : settled locals_init.
Proof. unfold settled. simpl. lia. Qed.

(** A line met outside a block that is not an opener leaves the tracker as
    it was. *)
Lemma step_untracked_tracker (filePath : string) (i : nat) (ln : jsstring)
    (st : Locals) :
  tracked st ln = false ->
  inFunctionOrClass (step filePath i ln st) = inFunctionOrClass st /\
  blockDepth (step filePath i ln st) = blockDepth st.
Proof.
  intros T. rewrite (step_untracked _ _ _ _ T).
  destruct (ignored ln); [tauto|]. destruct (flagged ln); simpl; tauto.
Qed.

Lemma tracked_false (st : Locals) (ln : jsstring) :
  tracked st ln = false <->
  RegExp.test_fresh opener (trim ln) = false /\ inFunctionOrClass st = false.
Proof.
  unfold tracked. destruct (RegExp.test_fresh opener (trim ln)); intuition congruence.
Qed.

Lemma run_untracked_body (filePath : string) (body : list jsstring) :
  Forall (fun l => RegExp.test_fresh opener (trim l) = false) body ->
  forall i st,
    inFunctionOrClass st = false ->
    inFunctionOrClass (run filePath i body st) = false /\
    blockDepth (run filePath i body st) = blockDepth st.
Proof.
  induction 1 as [|l body Hl Hbody IH]; intros i st Hst.
  - rewrite run_nil. tauto.
  - rewrite run_cons.
    assert (T : tracked st l = false) by (apply tracked_false; tauto).
    destruct (step_untracked_tracker filePath i l st T) as [E1 E2].
    destruct (IH (S i) (step filePath i l st)) as [E3 E4]; [congruence|].
    split; congruence.
Qed.

(** No finding of a scan carries the number of a line that pushed none. *)
Lemma scan_line_emitted (filePath : string) (lines : list jsstring)
    (k : nat) (ln : jsstring) :
  nth_error lines k = Some ln ->
  In (k + 1) (map line (scan filePath lines)) ->
  tracked (locals_at filePath lines k) ln = false /\
  ignored ln = false /\ flagged ln = true.
Proof.
  intros Hk Hin. apply in_map_iff in Hin. destruct Hin as (f & Hf & Hin).
  pose proof (scan_emitted filePath lines) as Hem.
  rewrite Forall_forall in Hem. apply Hem in Hin.
  destruct Hin as (k' & l' & Hk' & E & Ht & Hi & Hs).
  subst f. simpl in Hf. assert (k' = k) by lia. subst k'.
  rewrite Hk in Hk'. injection Hk' as <-. unfold locals_at. tauto.
Qed.

(** The six tests of [explainSideEffect] are the six patterns of
    [SIDE_EFFECT_PATTERNS]: a line that one of the patterns matches gets the
    reason of one of the six branches. *)
Lemma explain_recognizes_flagged (ln : jsstring) :
  flagged ln = true -> explainSideEffect ln <> reason_fallback.
Proof.
  unfold flagged, matches_any, SIDE_EFFECT_PATTERNS_init, explainSideEffect.
  cbn [existsb].
  repeat match goal with
  | |- context [RegExp.test_fresh ?R ln] =>
      destruct (RegExp.test_fresh R ln)
  end; simpl; intros H; try discriminate.
Qed.

Lemma analyzeFile_init (filePath : string) (lines : list jsstring) :
  analyzeFile filePath lines module_init = (scan filePath lines, module_init).
Proof.
  unfold scan.
  pose proof (analyzeFile_stateless filePath lines _ module_init_stateless) as E.
  destruct (analyzeFile filePath lines module_init). simpl in *. congruence.
Qed.

Lemma for_files_init (files : list File) :
  forall acc,
    for_files files acc module_init =
    (acc ++ flat_map (fun f => scan (fst f) (snd f)) files, module_init).
Proof.
  induction files as [|[filePath lines] files IH]; intros acc; simpl.
  - unfold ret. now rewrite app_nil_r.
  - unfold bind. rewrite analyzeFile_init, IH. f_equal.
    destruct (scan filePath lines) as [|f fs]; simpl.
    + reflexivity.
    + now rewrite <- app_assoc.
Qed.

Lemma for_dirs_init (dirs : list (list File)) :
  forall acc,
    for_dirs dirs acc module_init =
    (acc ++ flat_map (fun f => scan (fst f) (snd f)) (concat dirs),
     module_init).
Proof.
  induction dirs as [|files dirs IH]; intros acc; simpl.
  - unfold ret. now rewrite app_nil_r.
  - unfold bind. rewrite for_files_init, IH, flat_map_app, app_assoc.
    reflexivity.
Qed.

Lemma StronglySorted_lt_le (l : list nat) :
  StronglySorted lt l -> StronglySorted le l.
Proof.
  induction 1 as [|x l _ IH Hx]; constructor; [exact IH|].
  eapply Forall_impl; [|exact Hx]. simpl. intros y. lia.
Qed.

(* ------------------------------------------------------------------ *)
(** ** The scenarios of the specification *)

Example scenario_declaration :
  scan "a.js" [js "const x = 5;"] = [].
Proof. vm_compute; reflexivity. Qed.

Example scenario_assignment :
  scan "a.js" [js "window.myGlobal = true;"] =
  [ {| file := "a.js"; line := 1; code := js "window.myGlobal = true;";
       reason := reason_assignment |} ].
Proof. vm_compute; reflexivity. Qed.

Example scenario_listener :
  scan "a.js" [js "document.addEventListener('click', handler);"] =
  [ {| file := "a.js"; line := 1;
       code := js "document.addEventListener('click', handler);";
       reason := reason_listener |} ].
Proof. vm_compute; reflexivity. Qed.

Example scenario_call :
  scan "a.js" [js "doSomething();"] =
  [ {| file := "a.js"; line := 1; code := js "doSomething();";
       reason := reason_call |} ].
Proof. vm_compute; reflexivity. Qed.

Example scenario_one_level_service_call :
  scan "a.js" [js "firebase.initializeApp(config);"] =
  [ {| file := "a.js"; line := 1;
       code := js "firebase.initializeApp(config);";
       reason := reason_service |} ].
Proof. vm_compute; reflexivity. Qed.

(* ------------------------------------------------------------------ *)
(** ** Properties of the scanner *)

(** C1.  The module-scope line [AWS.config.update({ region: "us-east-1" });]
    is reported once, but not by the service-initialization rule: its
    pattern allows a single name after the namespace, so it does not match
    [AWS.config.update(]; the generic call pattern matches instead and
    [explainSideEffect] returns the reason of a top-level function call. *)
Theorem aws_config_update_reported_as_call :
  map (fun R => RegExp.test_fresh R c1_line) SIDE_EFFECT_PATTERNS_init =
    [false; false; false; true; false; false] /\
  ignored c1_line = false /\
  scan "src/utils/awsHelpers.js" [c1_line] =
  [ {| file := "src/utils/awsHelpers.js"; line := 1; code := c1_line;
       reason := reason_call |} ] /\
  reason_call <> reason_service.
Proof.
  split; [vm_compute; reflexivity|].
  split; [vm_compute; reflexivity|].
  split; [vm_compute; reflexivity | discriminate].
Qed.

(** C2.  A line that matches an ignore pattern yields no finding, whatever
    side-effect patterns it also matches: the round of the loop that meets
    it leaves [findings] as it was, and no finding of the scan carries its
    line number. *)
Theorem ignore_rules_dominate (filePath : string) (lines : list jsstring)
    (k : nat) (ln : jsstring) (st : Locals) :
  nth_error lines k = Some ln ->
  ignored ln = true ->
  findings (step filePath k ln st) = findings st /\
  ~ In (k + 1) (map line (scan filePath lines)).
Proof.
  intros Hk Hi. split.
  - rewrite step_findings, Hi.
    destruct (tracked st ln); now rewrite app_nil_r.
  - intros Hin.
    destruct (scan_line_emitted filePath lines k ln Hk Hin) as (_ & Hi' & _).
    congruence.
Qed.

(** The declaration [const x = awsHelper();] matches an ignore pattern and
    the service-initialization pattern, and is not reported. *)
Lemma ignore_rules_dominate_witness :
  ignored (js "const x = awsHelper();") = true /\
  flagged (js "const x = awsHelper();") = true /\
  findings (step "a.js" 0 (js "const x = awsHelper();") locals_init) = [] /\
  ~ In 1 (map line (scan "a.js" [js "const x = awsHelper();"])).
Proof.
  split; [vm_compute; reflexivity|]. split; [vm_compute; reflexivity|].
  apply (ignore_rules_dominate "a.js" [js "const x = awsHelper();"] 0
           (js "const x = awsHelper();") locals_init);
    vm_compute; reflexivity.
Defined.

(** C3.  A line that the tracker judges to be inside a function or class
    block when it is evaluated (the opening line and the closing line
    included) yields no finding, whatever its text; the three lines
    [function init() {], [  window.myGlobal = true;], [}] yield none. *)
Theorem tracked_lines_yield_no_finding (filePath : string)
    (lines : list jsstring) (k : nat) (ln : jsstring) :
  nth_error lines k = Some ln ->
  tracked (locals_at filePath lines k) ln = true ->
  findings (step filePath k ln (locals_at filePath lines k))
    = findings (locals_at filePath lines k) /\
  ~ In (k + 1) (map line (scan filePath lines)) /\
  scan filePath
    [js "function init() {"; js "  window.myGlobal = true;"; js "}"] = [].
Proof.
  intros Hk T. split; [|split].
  - rewrite step_findings, T. now rewrite app_nil_r.
  - intros Hin.
    destruct (scan_line_emitted filePath lines k ln Hk Hin) as (T' & _).
    congruence.
  - vm_compute; reflexivity.
Qed.

(** In scenario D each of the three lines is tracked, the assignment
    included. *)
Lemma tracked_lines_yield_no_finding_witness :
  let lines :=
    [js "function init() {"; js "  window.myGlobal = true;"; js "}"] in
  flagged (js "  window.myGlobal = true;") = true /\
  ignored (js "  window.myGlobal = true;") = false /\
  findings (step "a.js" 1 (js "  window.myGlobal = true;")
              (locals_at "a.js" lines 1))
    = findings (locals_at "a.js" lines 1) /\
  ~ In 2 (map line (scan "a.js" lines)) /\
  scan "a.js" lines = [].
Proof.
  split; [vm_compute; reflexivity|]. split; [vm_compute; reflexivity|].
  apply (tracked_lines_yield_no_finding "a.js"
           [js "function init() {"; js "  window.myGlobal = true;"; js "}"]
           1 (js "  window.myGlobal = true;"));
    vm_compute; reflexivity.
Defined.

(** C4.  On a line evaluated inside a block the depth goes up by exactly one
    when the line contains an opening brace, however many, and down by
    exactly one when it contains a closing brace; the tracker leaves the
    block on that line exactly when the depth is then zero or less, and the
    line yields no finding. *)
Theorem depth_updates_by_presence (filePath : string) (i : nat)
    (ln : jsstring) (st : Locals) :
  tracked st ln = true ->
  blockDepth (step filePath i ln st) =
    (blockDepth st + (if contains (chr "{") ln then 1 else 0)
     - (if contains (chr "}") ln then 1 else 0))%Z /\
  inFunctionOrClass (step filePath i ln st) =
    negb (blockDepth (step filePath i ln st) <=? 0)%Z /\
  findings (step filePath i ln st) = findings st.
Proof.
  intros T. rewrite (step_tracked filePath i ln st T). simpl.
  rewrite depth_after_presence. repeat split.
Qed.

(** At depth 2, a line with two opening braces and one closing brace leaves
    the depth at 2; at depth 1, a line with three closing braces brings it
    to 0 and ends the block. *)
Lemma depth_updates_by_presence_witness :
  let st2 := {| inFunctionOrClass := true; blockDepth := 2;
                findings := [] |} in
  let st1 := {| inFunctionOrClass := true; blockDepth := 1;
                findings := [] |} in
  (blockDepth (step "a.js" 4 (js "if (a) { b = {}; window.x = 1;") st2) = 2%Z /\
   inFunctionOrClass
     (step "a.js" 4 (js "if (a) { b = {}; window.x = 1;") st2) = true /\
   findings (step "a.js" 4 (js "if (a) { b = {}; window.x = 1;") st2) = []) /\
  step "a.js" 7 (js "}}}") st1 =
    {| inFunctionOrClass := false; blockDepth := 0; findings := [] |}.
Proof.
  split; [|vm_compute; reflexivity].
  apply (depth_updates_by_presence "a.js" 4
           (js "if (a) { b = {}; window.x = 1;")
           {| inFunctionOrClass := true; blockDepth := 2; findings := [] |}).
  vm_compute; reflexivity.
Defined.

(** C5.  The fallback reason is unreachable: every finding of a scan records
    a line that a side-effect pattern matches, its reason is what
    [explainSideEffect] returns for that line, and that is never
    'Possible side effect'. *)
Theorem fallback_reason_unreachable (filePath : string)
    (lines : list jsstring) (f : Finding) :
  In f (scan filePath lines) ->
  flagged (code f) = true /\
  reason f = explainSideEffect (code f) /\
  reason f <> reason_fallback.
Proof.
  intros Hin.
  pose proof (scan_emitted filePath lines) as Hem.
  rewrite Forall_forall in Hem. apply Hem in Hin.
  destruct Hin as (k & l & _ & E & _ & _ & Hs). subst f. simpl.
  repeat split; [exact Hs|]. now apply explain_recognizes_flagged.
Qed.

Lemma fallback_reason_unreachable_witness :
  let f := {| file := "a.js"; line := 1; code := js "doSomething();";
              reason := reason_call |} in
  flagged (code f) = true /\
  reason f = explainSideEffect (code f) /\
  reason f <> reason_fallback.
Proof.
  apply (fallback_reason_unreachable "a.js" [js "doSomething();"]).
  vm_compute. left. reflexivity.
Defined.

(** C6.  The findings that [main] accumulates are the findings of each file
    one after the other, in the order of the files; the findings of a file
    are in non-decreasing order of line number; nothing is removed or
    reordered, so a file supplied twice contributes its findings twice. *)
Theorem findings_concatenated_in_file_order (dirs : list (list File))
    (filePath : string) (lines : list jsstring) :
  fst (main_findings dirs module_init) =
    flat_map (fun f => scan (fst f) (snd f)) (concat dirs) /\
  StronglySorted le (map line (scan filePath lines)) /\
  fst (main_findings [[(filePath, lines); (filePath, lines)]] module_init) =
    scan filePath lines ++ scan filePath lines.
Proof.
  unfold main_findings. repeat split.
  - rewrite for_dirs_init. reflexivity.
  - apply StronglySorted_lt_le, scan_sorted.
  - rewrite for_dirs_init. simpl. now rewrite !app_nil_r.
Qed.

(** C7.  Scanning is deterministic: a second analysis of the same lines, run
    after the first in the same module, returns the same findings as the
    first, and so does an analysis run after [main] has scanned any other
    files. *)
Theorem scanning_is_deterministic (filePath : string)
    (lines : list jsstring) (dirs : list (list File)) :
  fst (analyzeFile filePath lines
         (snd (analyzeFile filePath lines module_init))) =
    fst (analyzeFile filePath lines module_init) /\
  fst (analyzeFile filePath lines (snd (main_findings dirs module_init))) =
    fst (analyzeFile filePath lines module_init).
Proof.
  unfold main_findings.
  rewrite analyzeFile_init, for_dirs_init. simpl.
  rewrite analyzeFile_init. split; reflexivity.
Qed.

(** C8.  A line met outside a block whose trimmed text matches the opener but
    which contains no opening brace sets [inFunctionOrClass] and resets it
    in the same round: the depth does not go up (it is unchanged unless the
    line holds a closing brace) and stays at zero or less.  The lines that
    follow are then evaluated outside any block, and can be reported, as
    the assignment in the body of [function f()] is. *)
Theorem opener_without_brace_is_not_tracked (filePath : string)
    (pre : list jsstring) (ln : jsstring) (body : list jsstring) :
  inFunctionOrClass (run filePath 0 pre locals_init) = false ->
  RegExp.test_fresh opener (trim ln) = true ->
  contains (chr "{") ln = false ->
  Forall (fun l => RegExp.test_fresh opener (trim l) = false) body ->
  tracked (run filePath 0 pre locals_init) ln = true /\
  inFunctionOrClass (after_line filePath pre ln) = false /\
  blockDepth (after_line filePath pre ln) =
    (blockDepth (run filePath 0 pre locals_init)
     - (if contains (chr "}") ln then 1 else 0))%Z /\
  (blockDepth (after_line filePath pre ln) <= 0)%Z /\
  findings (after_line filePath pre ln) =
    findings (run filePath 0 pre locals_init) /\
  (forall k l, nth_error body k = Some l ->
     tracked (locals_at filePath (pre ++ ln :: body) (length pre + 1 + k)) l
       = false) /\
  scan filePath
    [js "function f()"; js "{"; js "  window.x = 1;"; js "}"] =
  [ {| file := filePath; line := 3; code := js "  window.x = 1;";
       reason := reason_assignment |} ].
Proof.
  intros Hout Hop Hno Hbody.
  assert (T : tracked (run filePath 0 pre locals_init) ln = true).
  { unfold tracked. now rewrite Hop. }
  pose proof (run_settled filePath pre 0 locals_init locals_init_settled Hout)
    as Hdepth.
  pose proof (step_tracked filePath (length pre) ln _ T) as E.
  fold (after_line filePath pre ln) in E.
  pose proof (f_equal blockDepth E) as Ed.
  pose proof (f_equal inFunctionOrClass E) as Ei.
  pose proof (f_equal findings E) as Ef.
  simpl in Ed, Ei, Ef. rewrite <- Ed in Ei.
  rewrite depth_after_presence, Hno in Ed.
  assert (Hle : (blockDepth (after_line filePath pre ln) <= 0)%Z).
  { rewrite Ed. destruct (contains (chr "}") ln); lia. }
  assert (Hin : inFunctionOrClass (after_line filePath pre ln) = false).
  { rewrite Ei. destruct (Z.leb_spec (blockDepth (after_line filePath pre ln)) 0);
      [reflexivity | lia]. }
  split; [exact T|]. split; [exact Hin|].
  split; [rewrite Ed; lia|]. split; [exact Hle|]. split; [exact Ef|].
  split; [|vm_compute; reflexivity].
  intros k l Hk. unfold locals_at.
  replace (length pre + 1 + k) with (length pre + S k) by lia.
  rewrite firstn_app_2. simpl firstn.
  rewrite run_app, run_cons, Nat.add_0_l.
  fold (after_line filePath pre ln).
  apply tracked_false. split.
  - rewrite Forall_forall in Hbody. apply Hbody.
    eapply nth_error_In, Hk.
  - apply run_untracked_body; [|exact Hin].
    rewrite Forall_forall in *. intros x Hx. apply Hbody.
    rewrite <- (firstn_skipn k body). apply in_or_app. now left.
Qed.

Lemma opener_without_brace_is_not_tracked_witness :
  let body := [js "{"; js "  window.x = 1;"; js "}"] in
  tracked locals_init (js "function f()") = true /\
  inFunctionOrClass (after_line "a.js" [] (js "function f()")) = false /\
  blockDepth (after_line "a.js" [] (js "function f()")) = (0 - 0)%Z /\
  (blockDepth (after_line "a.js" [] (js "function f()")) <= 0)%Z /\
  findings (after_line "a.js" [] (js "function f()")) = [] /\
  (forall k l, nth_error body k = Some l ->
     tracked (locals_at "a.js" (js "function f()" :: body) (0 + 1 + k)) l
       = false) /\
  scan "a.js" [js "function f()"; js "{"; js "  window.x = 1;"; js "}"] =
  [ {| file := "a.js"; line := 3; code := js "  window.x = 1;";
       reason := reason_assignment |} ].
Proof.
  apply (opener_without_brace_is_not_tracked "a.js" [] (js "function f()")
           [js "{"; js "  window.x = 1;"; js "}"]).
  - vm_compute; reflexivity.
  - vm_compute; reflexivity.
  - vm_compute; reflexivity.
  - repeat constructor.
Defined.

(* ------------------------------------------------------------------ *)
(** ** Building matches *)

Section Building.

Variable ic : bool.

Lemma prev_after_app (a b : jsstring) (p : option char) :
  prev_after (a ++ b) p = prev_after b (prev_after a p).
Proof. apply fold_left_app. Qed.

Lemma matches_Lit_chars (K : jsstring) :
  forall cs p tail,
    K <> [] ->
    Forall2 (fun x c => char_matches ic x c = true) K cs ->
    matches ic (Lit_chars K) p (cs ++ tail) (prev_after cs p) tail.
Proof.
  induction K as [|x K IH]; intros cs p tail Hne HF; [congruence|].
  inversion HF as [|x' c K' cs' Hxc HF']; subst.
  destruct K as [|y K].
  - inversion HF'; subst. simpl. now constructor.
  - change (Lit_chars (x :: y :: K)) with (Seq (Char x) (Lit_chars (y :: K))).
    eapply M_Seq.
    + simpl. constructor. exact Hxc.
    + change (prev_after (c :: cs') p) with (prev_after cs' (Some c)).
      apply IH; [discriminate | exact HF'].
Qed.

Lemma matches_Alts (rs : list regex) (r : regex) (p : option char)
    (s : jsstring) (p' : option char) (s' : jsstring) :
  In r rs -> matches ic r p s p' s' -> matches ic (Alts rs) p s p' s'.
Proof.
  intros Hin M. induction rs as [|r0 rs IH]; [contradiction|].
  destruct rs as [|r1 rs].
  - destruct Hin as [->|[]]. exact M.
  - change (Alts (r0 :: r1 :: rs)) with (Alt r0 (Alts (r1 :: rs))).
    destruct Hin as [->|Hin]; [now apply M_AltL | apply M_AltR, IH, Hin].
Qed.

Lemma matches_Star_Class (items : list citem) (w : jsstring) :
  forall p tail,
    forallb (class_matches items) w = true ->
    matches ic (Star (Class items)) p (w ++ tail) (prev_after w p) tail.
Proof.
  induction w as [|c w IH]; intros p tail H; simpl in *.
  - constructor.
  - apply andb_prop in H. destruct H as [Hc Hw].
    eapply M_StarS; [now constructor | simpl; lia | now apply IH].
Qed.

Lemma matches_Star_Dot (w : jsstring) :
  forall p tail,
    forallb (fun c => negb (isLineTerminator c)) w = true ->
    matches ic (Star Dot) p (w ++ tail) (prev_after w p) tail.
Proof.
  induction w as [|c w IH]; intros p tail H; simpl in *.
  - constructor.
  - apply andb_prop in H. destruct H as [Hc Hw].
    apply negb_true_iff in Hc.
    eapply M_StarS; [now constructor | simpl; lia | now apply IH].
Qed.

End Building.

Lemma isWordChar_canonicalize (c : char) :
  isWordChar (canonicalize c) = isWordChar c.
Proof.
  unfold canonicalize, isWordChar, in_range.
  destruct (N.leb_spec 97 c), (N.leb_spec c 122); simpl; try reflexivity.
  all: repeat match goal with
  | |- context [(?a <=? ?b)%N] => destruct (N.leb_spec a b); try lia
  | |- context [(?a =? ?b)%N] => destruct (N.eqb_spec a b); try lia
  end; reflexivity.
Qed.

Lemma spells_Forall2 (K : jsstring) :
  forall cs, spells K cs = true ->
    Forall2 (fun x c => char_matches true x c = true) K cs.
Proof.
  induction K as [|x K IH]; intros [|c cs] H; simpl in H;
    try discriminate; constructor.
  - apply andb_prop in H. tauto.
  - apply IH. apply andb_prop in H. tauto.
Qed.

(** A text that spells a word starting with a word character starts with a
    word character. *)
Lemma spells_head_word (x : char) (K cs : jsstring) :
  isWordChar x = true -> spells (x :: K) cs = true ->
  forall tail, word_at (hd_error (cs ++ tail)) = true.
Proof.
  intros Hx H tail. destruct cs as [|c cs]; simpl in H; [discriminate|].
  apply andb_prop in H. destruct H as [H _]. simpl.
  unfold char_matches in H. apply N.eqb_eq in H.
  rewrite <- isWordChar_canonicalize, <- H, isWordChar_canonicalize.
  exact Hx.
Qed.

Lemma sdk_keyword_shape (K : string) :
  In K sdk_keywords ->
  exists x K', js K = x :: K' /\ isWordChar x = true.
Proof.
  intros H. simpl in H.
  repeat (destruct H as [<-|H];
          [eexists; eexists; split; [reflexivity | reflexivity]|]).
  contradiction.
Qed.

(** The service-initialization pattern matches every line that holds a call
    whose called name starts, at a word boundary and in any case, with one
    of its namespaces and goes on with word characters. *)
Lemma sdk_pattern_matches (K : string) (pre kw w args post : jsstring) :
  In K sdk_keywords ->
  spells (js K) kw = true ->
  word_at (last_char pre) = false ->
  forallb isWordChar w = true ->
  forallb (fun c => negb (isLineTerminator c)) args = true ->
  RegExp.test_fresh (RegExp.literal sdk_pattern true)
    (call_line pre kw w args post) = true.
Proof.
  intros HK Hkw Hb Hw Hargs.
  apply test_fresh_literal, search_iff.
  exists pre, (kw ++ w ++ [chr "("] ++ args ++ [chr ")"] ++ post).
  split; [reflexivity|].
  apply match_here_iff.
  destruct (sdk_keyword_shape K HK) as (x & K' & EK & Hx).
  exists (Some (chr ")")), post.
  unfold sdk_pattern. cbn [SIDE_EFFECT_PATTERNS_init RegExp.source
                            RegExp.literal Seqs].
  eapply M_Seq.
  { constructor. fold (last_char pre). rewrite Hb.
    rewrite EK in Hkw. now rewrite (spells_head_word x K' kw Hx Hkw). }
  eapply M_Seq.
  { apply matches_Alts with (r := Lit K).
    - simpl in HK. simpl.
      repeat (destruct HK as [<-|HK]; [tauto|]). contradiction.
    - apply matches_Lit_chars; [rewrite EK; discriminate|].
      now apply spells_Forall2. }
  eapply M_Seq; [apply M_Star0|].
  eapply M_Seq.
  { apply matches_Star_Class.
    rewrite <- Hw. clear. induction w as [|c w IH]; [reflexivity|].
    simpl. rewrite IH. now rewrite orb_false_r. }
  eapply M_Seq; [apply M_Star0|].
  eapply M_Seq; [constructor; reflexivity|].
  eapply M_Seq; [now apply matches_Star_Dot|].
  constructor. reflexivity.
Qed.

(** A line that the service-initialization pattern matches, met outside a
    tracked block and matched by no ignore pattern, is reported with the
    reason of the service-initialization rule. *)
Lemma service_reason_reported (filePath : string) (i : nat) (st : Locals)
    (ln : jsstring) :
  tracked st ln = false ->
  ignored ln = false ->
  RegExp.test_fresh (RegExp.literal sdk_pattern true) ln = true ->
  findings (step filePath i ln st) =
  findings st ++
  [ {| file := filePath; line := i + 1; code := ln;
       reason := reason_service |} ].
Proof.
  intros T I H.
  rewrite step_findings, T, I.
  assert (F : flagged ln = true).
  { unfold flagged, matches_any, SIDE_EFFECT_PATTERNS_init. cbn [existsb].
    apply orb_true_iff. left. exact H. }
  rewrite F. unfold finding_for. do 3 f_equal.
  unfold explainSideEffect.
  match goal with
  | |- (if ?t then _ else _) = _ =>
      replace t with true by (symmetry; exact H)
  end.
  reflexivity.
Qed.

(** ** Lines that start with a namespace of the service rule *)

Lemma search_anchored (i : bool) (r : regex) :
  anchored r -> forall s c, search i r (Some c) s = None.
Proof.
  intros Hr. induction s as [|x s IH]; intros c; simpl;
    unfold match_here; rewrite Hr; [reflexivity | apply IH].
Qed.

Lemma test_fresh_anchored (r : regex) (ln : jsstring) :
  anchored r ->
  match_here false r None ln = None ->
  RegExp.test_fresh (RegExp.literal r false) ln = false.
Proof.
  intros Hr H. unfold RegExp.test_fresh, RegExp.test. simpl.
  destruct ln as [|c s]; simpl; rewrite H; [reflexivity|].
  now rewrite (search_anchored false r Hr).
Qed.

Lemma dropWhile_snoc (p : char -> bool) (l : jsstring) (c : char) :
  p c = false -> dropWhile p (l ++ [c]) = dropWhile p l ++ [c].
Proof.
  intros Hc. induction l as [|x l IH]; simpl.
  - now rewrite Hc.
  - destruct (p x); [exact IH | reflexivity].
Qed.

(** [trim] keeps the first two characters of a text that starts with two
    characters other than white space. *)
Lemma trim_cons2 (c1 c2 : char) (t : jsstring) :
  isWhiteSpace c1 = false -> isWhiteSpace c2 = false ->
  trim (c1 :: c2 :: t) =
  c1 :: c2 :: rev (dropWhile isWhiteSpace (rev t)).
Proof.
  intros H1 H2. unfold trim. simpl dropWhile. rewrite H1. simpl rev.
  rewrite !dropWhile_snoc by assumption.
  rewrite !rev_app_distr. reflexivity.
Qed.

Lemma char_matches_ci_cases (x c : char) :
  char_matches true x c = true ->
  c = canonicalize x \/ c = (canonicalize x + 32)%N.
Proof.
  unfold char_matches. intros H. apply N.eqb_eq in H. rewrite H.
  unfold canonicalize, in_range.
  destruct (N.leb_spec 97 c), (N.leb_spec c 122); simpl; try tauto.
  right. lia.
Qed.

(** A line that starts with a namespace of the service rule, in any case,
    is neither an opener nor matched by an ignore pattern. *)
Lemma sdk_call_statement_not_suppressed (K : string)
    (kw w args post : jsstring) :
  In K sdk_keywords ->
  spells (js K) kw = true ->
  RegExp.test_fresh opener (trim (call_line [] kw w args post)) = false /\
  ignored (call_line [] kw w args post) = false.
Proof.
  intros HK Hkw. unfold call_line. rewrite app_nil_l.
  simpl in HK.
  repeat (destruct HK as [<-|HK]; [|]); [..|contradiction].
  all: destruct kw as [|c1 [|c2 kw']]; cbn -[char_matches] in Hkw;
    try discriminate Hkw.
  all: apply andb_prop in Hkw; destruct Hkw as [H1 Hkw];
    try discriminate Hkw.
  all: apply andb_prop in Hkw; destruct Hkw as [H2 _].
  all: apply char_matches_ci_cases in H1, H2.
  all: cbn in H1, H2.
  all: destruct H1 as [-> | ->], H2 as [-> | ->].
  all: split.
  all: try (simpl app; rewrite trim_cons2 by reflexivity;
            unfold opener; apply test_fresh_anchored;
            [intros ? ? ? ?; reflexivity | vm_compute; reflexivity]).
  all: unfold ignored, matches_any, IGNORE_PATTERNS_init; cbn [existsb].
  all: repeat (rewrite test_fresh_anchored;
               [ | intros ? ? ? ?; reflexivity | vm_compute; reflexivity ]).
  all: reflexivity.
Qed.

(** A call statement that starts the line and whose called name starts, in
    any case, with a namespace of the service rule and goes on with word
    characters is reported with the reason of the service rule whenever it
    is met outside a tracked block. *)
Lemma sdk_call_statement_reported (filePath : string) (i : nat)
    (st : Locals) (K : string) (kw w args post : jsstring) :
  In K sdk_keywords ->
  spells (js K) kw = true ->
  forallb isWordChar w = true ->
  forallb (fun c => negb (isLineTerminator c)) args = true ->
  inFunctionOrClass st = false ->
  findings (step filePath i (call_line [] kw w args post) st) =
  findings st ++
  [ {| file := filePath; line := i + 1;
       code := call_line [] kw w args post;
       reason := reason_service |} ].
Proof.
  intros HK Hkw Hw Hargs Hst.
  destruct (sdk_call_statement_not_suppressed K kw w args post HK Hkw)
    as [Hop Hig].
  apply service_reason_reported.
  - apply tracked_false. tauto.
  - exact Hig.
  - now apply (sdk_pattern_matches K).
Qed.



(* ------------------------------------------------------------------ *)
(** ** Lines that declare an arrow function *)

Ltac invert_match H := inversion H; subst; clear H.

(** Take apart a match of a pattern given by its constructors, down to its
    stars. *)
Ltac invert_matches :=
  repeat match goal with
  | H : matches _ (Seq _ _) _ _ _ _ |- _ => invert_match H
  | H : matches _ (Alt _ _) _ _ _ _ |- _ => invert_match H
  | H : matches _ (Char _) _ _ _ _ |- _ => invert_match H
  | H : matches _ (Class _) _ _ _ _ |- _ => invert_match H
  | H : matches _ Empty _ _ _ _ |- _ => invert_match H
  | H : matches _ Bol _ _ _ _ |- _ => invert_match H
  | H : matches _ Eol _ _ _ _ |- _ => invert_match H
  end.

Ltac char_facts :=
  repeat match goal with
  | H : char_matches false _ _ = true |- _ =>
      unfold char_matches in H; apply N.eqb_eq in H; subst
  end.



Lemma firstn_length_app (A : Type) (l1 l2 : list A) :
  firstn (length l1) (l1 ++ l2) = l1.
Proof.
  rewrite <- (Nat.add_0_r (length l1)), firstn_app_2.
  simpl. apply app_nil_r.
Qed.

(** A line met outside a tracked block that no ignore pattern and some
    side-effect pattern matches is reported. *)
Lemma scan_reports (filePath : string) (lines : list jsstring) (k : nat)
    (ln : jsstring) :
  nth_error lines k = Some ln ->
  tracked (locals_at filePath lines k) ln = false ->
  ignored ln = false ->
  flagged ln = true ->
  In (finding_for filePath k ln) (scan filePath lines).
Proof.
  intros Hk T I F.
  destruct (nth_error_split lines k Hk) as (l1 & l2 & -> & <-).
  unfold locals_at in T. rewrite firstn_length_app in T.
  rewrite scan_run, run_app, run_cons, Nat.add_0_l.
  destruct (run_findings filePath l2 (S (length l1))
              (step filePath (length l1) ln (run filePath 0 l1 locals_init)))
    as (new & E & _).
  rewrite E, step_findings, T, I, F.
  apply in_or_app. left. apply in_or_app. right. now left.
Qed.





(* ------------------------------------------------------------------ *)
(** ** The lines of a file *)

Lemma match_here_newline (prev : option char) (s : jsstring) :
  match_here false (RegExp.source newline) prev s = line_end s.
Proof.
  unfold match_here, newline, Opt, line_end.
  cbn [RegExp.source RegExp.literal rmatch].
  destruct s as [|c s']; [reflexivity|].
  cbn [orelse char_matches].
  rewrite (N.eqb_sym CR c), (N.eqb_sym LF c).
  destruct (N.eqb_spec c LF) as [->|HLF]; [reflexivity|].
  destruct (N.eqb_spec c CR) as [->|HCR]; [|reflexivity].
  destruct s' as [|d s'']; [reflexivity|].
  rewrite (N.eqb_sym LF d). destruct (d =? LF)%N; reflexivity.
Qed.

Lemma split_loop_cons (i : bool) (r : regex) (fuel : nat)
    (piece : jsstring) (prev : option char) (c : char) (s' : jsstring) :
  split_loop i r (S fuel) piece prev (c :: s') =
  match match_here i r prev (c :: s') with
  | None => split_loop i r fuel (piece ++ [c]) (Some c) s'
  | Some rest =>
      if (length rest =? length (c :: s')) && (length piece =? 0)
      then split_loop i r fuel (piece ++ [c]) (Some c) s'
      else
        piece ::
        split_loop i r fuel []
          (prev_after (firstn (length (c :: s') - length rest) (c :: s')) prev)
          rest
  end.
Proof. reflexivity. Qed.

(** With the separator of line 71 the loop of [split] cuts the text at
    every line feed and drops a carriage return right before it. *)
Lemma split_loop_pieces (fuel : nat) :
  forall piece prev s,
    length s < fuel ->
    split_loop false (RegExp.source newline) fuel piece prev s =
    pieces piece s.
Proof.
  induction fuel as [|fuel IH]; intros piece prev s Hlen; [lia|].
  destruct s as [|c s']; [reflexivity|].
  rewrite split_loop_cons, match_here_newline.
  cbn [length] in Hlen. cbn [line_end pieces].
  destruct (c =? LF)%N.
  - replace (length s' =? length (c :: s')) with false
      by (symmetry; apply Nat.eqb_neq; cbn [length]; lia).
    cbn [andb]. f_equal. apply IH. lia.
  - destruct (c =? CR)%N; cbn [andb]; [|apply IH; lia].
    destruct s' as [|d s'']; [apply IH; cbn [length]; lia|].
    destruct (d =? LF)%N eqn:E; [|apply IH; cbn [length] in *; lia].
    replace (length s'' =? length (c :: d :: s'')) with false
      by (symmetry; apply Nat.eqb_neq; cbn [length]; lia).
    cbn [andb pieces]. rewrite E. f_equal. apply IH.
    cbn [length] in Hlen. lia.
Qed.

Lemma lines_of_pieces (content : jsstring) :
  lines_of content = pieces [] content.
Proof.
  unfold lines_of, split. destruct content as [|c s]; [reflexivity|].
  apply split_loop_pieces. simpl. lia.
Qed.

Lemma contains_app (c : char) (a b : jsstring) :
  contains c (a ++ b) = contains c a || contains c b.
Proof. apply existsb_app. Qed.

Lemma pieces_nonempty (s : jsstring) :
  forall piece, pieces piece s <> [].
Proof.
  induction s as [|c s IH]; intros piece; simpl; [discriminate|].
  destruct (c =? LF)%N; [discriminate|].
  destruct (_ && _); apply IH.
Qed.

Lemma pieces_no_LF (s : jsstring) :
  forall piece,
    contains LF piece = false ->
    Forall (fun l => contains LF l = false) (pieces piece s).
Proof.
  induction s as [|c s IH]; intros piece Hp; simpl.
  - constructor; [exact Hp | constructor].
  - destruct (N.eqb_spec c LF) as [->|Hc].
    + constructor; [exact Hp | now apply IH].
    + destruct (_ && _); [now apply IH|].
      apply IH. rewrite contains_app, Hp. unfold contains.
      cbn [existsb orb]. rewrite orb_false_r. apply N.eqb_neq. congruence.
Qed.

Lemma pieces_length (s : jsstring) :
  forall piece,
    length (pieces piece s) = 1 + count_occ N.eq_dec s LF.
Proof.
  induction s as [|c s IH]; intros piece; simpl; [reflexivity|].
  destruct (N.eqb_spec c LF) as [->|Hc].
  - destruct (N.eq_dec LF LF); [|congruence]. simpl. now rewrite IH.
  - destruct (N.eq_dec c LF); [congruence|].
    destruct (_ && _); apply IH.
Qed.

Lemma pieces_join (s : jsstring) :
  forall piece, join_lines (pieces piece s) = piece ++ strip_CR s.
Proof.
  induction s as [|c s IH]; intros piece; simpl.
  - now rewrite app_nil_r.
  - destruct (N.eqb_spec c LF) as [->|Hc].
    + pose proof (pieces_nonempty s []) as Hne.
      specialize (IH []). destruct (pieces [] s) as [|l ls]; [congruence|].
      change (join_lines (piece :: l :: ls))
        with (piece ++ LF :: join_lines (l :: ls)).
      rewrite IH. reflexivity.
    + destruct (_ && _); [apply IH|].
      rewrite IH, <- app_assoc. reflexivity.
Qed.

Lemma pieces_to_CRLF (s : jsstring) :
  contains CR s = false ->
  forall piece, pieces piece (to_CRLF s) = pieces piece s.
Proof.
  induction s as [|c s IH]; intros Hs piece; [reflexivity|].
  unfold contains in Hs. cbn [existsb] in Hs.
  apply orb_false_elim in Hs. destruct Hs as [Hc Hs].
  rewrite N.eqb_sym in Hc.
  unfold to_CRLF. cbn [flat_map]. fold (to_CRLF s).
  destruct (c =? LF)%N eqn:E.
  - apply N.eqb_eq in E. subst c.
    change (pieces piece ([CR; LF] ++ to_CRLF s))
      with (piece :: pieces [] (to_CRLF s)).
    change (pieces piece (LF :: s)) with (piece :: pieces [] s).
    f_equal. now apply IH.
  - cbn [app pieces]. rewrite E, Hc. cbn [andb]. now apply IH.
Qed.

(** X1.  No line that [analyzeFile] scans holds a line feed. *)
Theorem lines_have_no_line_feed (content : jsstring) :
  Forall (fun l => contains LF l = false) (lines_of content).
Proof.
  rewrite lines_of_pieces. now apply pieces_no_LF.
Qed.

(** X2.  A text is split into one line more than it has line feeds; the
    empty text gives one empty line. *)
Theorem lines_count (content : jsstring) :
  length (lines_of content) = 1 + count_occ N.eq_dec content LF.
Proof.
  rewrite lines_of_pieces. apply pieces_length.
Qed.

(** X3.  Joining the lines with line feeds gives the text back, without the
    carriage returns that stood right before a line feed. *)
Theorem lines_join_round_trip (content : jsstring) :
  join_lines (lines_of content) = strip_CR content.
Proof.
  rewrite lines_of_pieces. apply pieces_join.
Qed.

(** X4.  A text without carriage returns has the same lines, and so the same
    findings, when its line ends are written as carriage return and line
    feed. *)
Theorem CRLF_file_scans_alike (filePath : string) (content : jsstring) :
  contains CR content = false ->
  lines_of (to_CRLF content) = lines_of content /\
  scan filePath (lines_of (to_CRLF content)) =
    scan filePath (lines_of content).
Proof.
  intros H.
  assert (E : lines_of (to_CRLF content) = lines_of content).
  { rewrite !lines_of_pieces. now apply pieces_to_CRLF. }
  rewrite E. split; reflexivity.
Qed.

Lemma CRLF_file_scans_alike_witness :
  let content := js "const a = 1;" ++ [LF] ++ js "window.a = a;" in
  lines_of (to_CRLF content) = lines_of content /\
  scan "a.js" (lines_of (to_CRLF content)) = scan "a.js" (lines_of content).
Proof.
  apply (CRLF_file_scans_alike "a.js"
           (js "const a = 1;" ++ [LF] ++ js "window.a = a;")).
  vm_compute; reflexivity.
Defined.

(* ------------------------------------------------------------------ *)
(** ** More on the loop of [analyzeFile] *)

Lemma run_findings_count (filePath : string) (lines : list jsstring) :
  forall i st,
    length (findings (run filePath i lines st))
    <= length (findings st) + length lines.
Proof.
  induction lines as [|ln rest IH]; intros i st.
  - rewrite run_nil. simpl. lia.
  - rewrite run_cons. specialize (IH (S i) (step filePath i ln st)).
    rewrite step_findings, length_app in IH. simpl length.
    destruct (tracked st ln); [simpl in IH; lia|].
    destruct (ignored ln); [simpl in IH; lia|].
    destruct (flagged ln); simpl in IH; lia.
Qed.

Lemma step_flag_is_depth (filePath : string) (i : nat) (ln : jsstring)
    (st : Locals) :
  flag_is_depth st -> flag_is_depth (step filePath i ln st).
Proof.
  intros Hst. destruct (tracked st ln) eqn:T.
  - rewrite (step_tracked filePath i ln st T). unfold flag_is_depth. simpl.
    destruct (Z.leb_spec (depth_after st ln) 0),
             (Z.ltb_spec 0 (depth_after st ln)); simpl; try reflexivity; lia.
  - rewrite (step_untracked filePath i ln st T).
    destruct (ignored ln); [exact Hst|]. destruct (flagged ln); exact Hst.
Qed.

Lemma run_flag_is_depth (filePath : string) (lines : list jsstring) :
  forall i st, flag_is_depth st -> flag_is_depth (run filePath i lines st).
Proof.
  induction lines as [|ln rest IH]; intros i st Hst.
  - exact Hst.
  - rewrite run_cons. apply IH, step_flag_is_depth, Hst.
Qed.

Lemma tracked_same_flag (st1 st2 : Locals) (ln : jsstring) :
  inFunctionOrClass st1 = inFunctionOrClass st2 ->
  tracked st1 ln = tracked st2 ln.
Proof. unfold tracked. now intros ->. Qed.

(** The tracker after a round depends on the tracker before it and on the
    line alone. *)
Lemma step_same_tracker (filePath : string) (i j : nat) (ln : jsstring)
    (st1 st2 : Locals) :
  inFunctionOrClass st1 = inFunctionOrClass st2 ->
  blockDepth st1 = blockDepth st2 ->
  inFunctionOrClass (step filePath i ln st1) =
    inFunctionOrClass (step filePath j ln st2) /\
  blockDepth (step filePath i ln st1) = blockDepth (step filePath j ln st2).
Proof.
  intros Hf Hd. pose proof (tracked_same_flag st1 st2 ln Hf) as HT.
  destruct (tracked st1 ln) eqn:T1; symmetry in HT.
  - rewrite (step_tracked filePath i ln st1 T1),
            (step_tracked filePath j ln st2 HT).
    unfold depth_after. simpl. rewrite Hd. split; reflexivity.
  - destruct (step_untracked_tracker filePath i ln st1 T1) as [-> ->].
    destruct (step_untracked_tracker filePath j ln st2 HT) as [-> ->].
    split; assumption.
Qed.

Lemma finding_for_shift (filePath : string) (d i : nat) (ln : jsstring) :
  finding_for filePath (d + i) ln = shift_line d (finding_for filePath i ln).
Proof.
  unfold finding_for, shift_line. simpl. f_equal. lia.
Qed.

(** Two runs over the same lines from the same tracker, the second numbered
    [d] lines further down, push the same findings up to their numbers. *)
Lemma run_rebase (filePath : string) (d : nat) (lines : list jsstring) :
  forall i st1 st2,
    inFunctionOrClass st1 = inFunctionOrClass st2 ->
    blockDepth st1 = blockDepth st2 ->
    exists new,
      findings (run filePath i lines st1) = findings st1 ++ new /\
      findings (run filePath (d + i) lines st2) =
        findings st2 ++ map (shift_line d) new.
Proof.
  induction lines as [|ln rest IH]; intros i st1 st2 Hf Hd.
  - exists []. rewrite !run_nil, !app_nil_r. split; reflexivity.
  - rewrite !run_cons.
    destruct (step_same_tracker filePath i (d + i) ln st1 st2 Hf Hd)
      as [Hf' Hd'].
    replace (S (d + i)) with (d + S i) by lia.
    destruct (IH (S i) _ _ Hf' Hd') as (new & E1 & E2).
    rewrite E1, E2, !step_findings, <- (tracked_same_flag st1 st2 ln Hf).
    rewrite finding_for_shift.
    destruct (tracked st1 ln);
      [|destruct (ignored ln); [|destruct (flagged ln)]];
      try (exists new; rewrite !app_nil_r; split; reflexivity).
    exists (finding_for filePath i ln :: new).
    rewrite <- !app_assoc. split; reflexivity.
Qed.

(** X5.  Every finding of a scan names the file scanned and a line of it:
    its number lies between 1 and the number of lines, and its code is the
    text of the line with that number. *)
Theorem finding_points_to_its_line (filePath : string)
    (lines : list jsstring) (f : Finding) :
  In f (scan filePath lines) ->
  file f = filePath /\
  1 <= line f <= length lines /\
  nth_error lines (line f - 1) = Some (code f).
Proof.
  intros Hin.
  pose proof (scan_emitted filePath lines) as Hem.
  rewrite Forall_forall in Hem. apply Hem in Hin.
  destruct Hin as (k & l & Hk & -> & _). simpl.
  assert (k < length lines) by (apply nth_error_Some; congruence).
  replace (k + 1 - 1) with k by lia.
  split; [reflexivity|]. split; [lia | exact Hk].
Qed.

Lemma finding_points_to_its_line_witness :
  let f := {| file := "a.js"; line := 2; code := js "window.a = a;";
              reason := reason_assignment |} in
  file f = "a.js"%string /\
  1 <= line f <= 2 /\
  nth_error [js "const a = 1;"; js "window.a = a;"] (line f - 1)
    = Some (code f).
Proof.
  apply (finding_points_to_its_line "a.js"
           [js "const a = 1;"; js "window.a = a;"]).
  vm_compute. left. reflexivity.
Defined.

(** X6.  A line is reported exactly when the tracker is outside a block as
    it is evaluated, no ignore pattern matches it and some side-effect
    pattern does. *)
Theorem line_reported_iff (filePath : string) (lines : list jsstring)
    (k : nat) (ln : jsstring) :
  nth_error lines k = Some ln ->
  (In (k + 1) (map line (scan filePath lines)) <->
   tracked (locals_at filePath lines k) ln = false /\
   ignored ln = false /\ flagged ln = true).
Proof.
  intros Hk. split.
  - now apply scan_line_emitted.
  - intros (T & I & F). apply in_map_iff.
    exists (finding_for filePath k ln). split; [reflexivity|].
    now apply scan_reports.
Qed.

Lemma line_reported_iff_witness :
  In (1 + 1) (map line (scan "a.js" [js "const a = 1;"; js "window.a = a;"]))
  <->
  tracked (locals_at "a.js" [js "const a = 1;"; js "window.a = a;"] 1)
    (js "window.a = a;") = false /\
  ignored (js "window.a = a;") = false /\
  flagged (js "window.a = a;") = true.
Proof.
  apply (line_reported_iff "a.js" [js "const a = 1;"; js "window.a = a;"] 1
           (js "window.a = a;")).
  reflexivity.
Defined.

(** X7.  The line numbers of the findings of a file are strictly
    increasing, so no line is reported twice, however many patterns match
    it, and there are no more findings than lines. *)
Theorem at_most_one_finding_per_line (filePath : string)
    (lines : list jsstring) :
  StronglySorted lt (map line (scan filePath lines)) /\
  NoDup (map line (scan filePath lines)) /\
  length (scan filePath lines) <= length lines.
Proof.
  pose proof (scan_sorted filePath lines) as Hso.
  split; [exact Hso|]. split.
  - induction Hso as [|x l _ IH Hx]; constructor; [|exact IH].
    intros Hin. rewrite Forall_forall in Hx. apply Hx in Hin. lia.
  - rewrite scan_run.
    apply (run_findings_count filePath lines 0 locals_init).
Qed.

(** X8.  At every line of a scan the flag [inFunctionOrClass] is set exactly
    when [blockDepth] is positive. *)
Theorem tracker_flag_is_positive_depth (filePath : string)
    (lines : list jsstring) (k : nat) :
  inFunctionOrClass (locals_at filePath lines k) =
  (0 <? blockDepth (locals_at filePath lines k))%Z.
Proof.
  apply (run_flag_is_depth filePath (firstn k lines) 0 locals_init).
  reflexivity.
Qed.

(** X9.  An opener line that holds both an opening and a closing brace, met
    outside a block, is skipped and leaves the tracker outside a block with
    the depth it had: what follows it is scanned as module scope, whether
    or not the function ends on that line. *)
Theorem opener_with_both_braces_closes_at_once (filePath : string)
    (pre : list jsstring) (ln : jsstring) :
  inFunctionOrClass (run filePath 0 pre locals_init) = false ->
  RegExp.test_fresh opener (trim ln) = true ->
  contains (chr "{") ln = true ->
  contains (chr "}") ln = true ->
  inFunctionOrClass (after_line filePath pre ln) = false /\
  blockDepth (after_line filePath pre ln) =
    blockDepth (run filePath 0 pre locals_init) /\
  findings (after_line filePath pre ln) =
    findings (run filePath 0 pre locals_init).
Proof.
  intros Hout Hop Ho Hc.
  assert (T : tracked (run filePath 0 pre locals_init) ln = true).
  { unfold tracked. now rewrite Hop. }
  pose proof (run_settled filePath pre 0 locals_init locals_init_settled Hout)
    as Hdepth.
  unfold after_line. rewrite (step_tracked filePath (length pre) ln _ T).
  simpl. rewrite depth_after_presence, Ho, Hc.
  replace (blockDepth (run filePath 0 pre locals_init) + 1 - 1)%Z
    with (blockDepth (run filePath 0 pre locals_init)) by lia.
  destruct (Z.leb_spec (blockDepth (run filePath 0 pre locals_init)) 0);
    [|lia].
  repeat split.
Qed.

(** The function opened by [function f() { if (a) {] is not closed on that
    line, yet the assignment on the next line is reported. *)
Lemma opener_with_both_braces_closes_at_once_witness :
  (inFunctionOrClass (after_line "a.js" [] (js "function f(a) { if (a) { g(); }"))
     = false /\
   blockDepth (after_line "a.js" [] (js "function f(a) { if (a) { g(); }"))
     = 0%Z /\
   findings (after_line "a.js" [] (js "function f(a) { if (a) { g(); }"))
     = []) /\
  map line (scan "a.js" [js "function f(a) { if (a) { g(); }";
                         js "  window.x = 1;"; js "}"]) = [2].
Proof.
  split; [|vm_compute; reflexivity].
  apply (opener_with_both_braces_closes_at_once "a.js" []
           (js "function f(a) { if (a) { g(); }"));
    vm_compute; reflexivity.
Defined.

(** X10.  The findings for the first lines of a file do not depend on the
    lines after them: the scan of a prefix is a prefix of the scan. *)
Theorem scan_of_prefix_is_prefix (filePath : string)
    (l1 l2 : list jsstring) :
  firstn (length (scan filePath l1)) (scan filePath (l1 ++ l2)) =
  scan filePath l1.
Proof.
  rewrite !scan_run, run_app.
  destruct (run_findings filePath l2 (0 + length l1)
              (run filePath 0 l1 locals_init)) as (new & E & _).
  rewrite E. apply firstn_length_app.
Qed.

(** X11.  When the tracker is back outside any block at depth zero after the
    lines [l1], the findings of [l1] followed by [l2] are the findings of
    [l1] and then those of [l2], their line numbers moved down by the
    length of [l1]. *)
Theorem scan_of_concatenation (filePath : string) (l1 l2 : list jsstring) :
  inFunctionOrClass (run filePath 0 l1 locals_init) = false ->
  blockDepth (run filePath 0 l1 locals_init) = 0%Z ->
  scan filePath (l1 ++ l2) =
  scan filePath l1 ++ map (shift_line (length l1)) (scan filePath l2).
Proof.
  intros Hf Hd. rewrite !scan_run, run_app, Nat.add_0_l.
  destruct (run_rebase filePath (length l1) l2 0 locals_init
              (run filePath 0 l1 locals_init)) as (new & E1 & E2).
  - now rewrite Hf.
  - now rewrite Hd.
  - rewrite Nat.add_0_r in E2. rewrite E2, E1. reflexivity.
Qed.

Lemma scan_of_concatenation_witness :
  let l1 := [js "function f() {"; js "  window.x = 1;"; js "}"] in
  let l2 := [js "const a = 1;"; js "window.a = a;"] in
  scan "a.js" (l1 ++ l2) =
  scan "a.js" l1 ++ map (shift_line (length l1)) (scan "a.js" l2).
Proof.
  apply (scan_of_concatenation "a.js"
           [js "function f() {"; js "  window.x = 1;"; js "}"]
           [js "const a = 1;"; js "window.a = a;"]);
    vm_compute; reflexivity.
Defined.

(** X13.  The depth is not reset when a block ends: once it is below zero,
    an opener line met outside a block does not start a tracked block, so
    the body that follows it is scanned as module scope. *)
Theorem opener_at_negative_depth_is_not_tracked (filePath : string)
    (pre : list jsstring) (ln : jsstring) :
  inFunctionOrClass (run filePath 0 pre locals_init) = false ->
  (blockDepth (run filePath 0 pre locals_init) < 0)%Z ->
  RegExp.test_fresh opener (trim ln) = true ->
  inFunctionOrClass (after_line filePath pre ln) = false /\
  (blockDepth (after_line filePath pre ln) <= 0)%Z /\
  findings (after_line filePath pre ln) =
    findings (run filePath 0 pre locals_init).
Proof.
  intros Hout Hneg Hop.
  assert (T : tracked (run filePath 0 pre locals_init) ln = true).
  { unfold tracked. now rewrite Hop. }
  unfold after_line. rewrite (step_tracked filePath (length pre) ln _ T).
  simpl. rewrite depth_after_presence.
  assert (Hle : (blockDepth (run filePath 0 pre locals_init)
                 + (if contains (chr "{") ln then 1 else 0)
                 - (if contains (chr "}") ln then 1 else 0) <= 0)%Z).
  { destruct (contains (chr "{") ln), (contains (chr "}") ln); lia. }
  destruct (Z.leb_spec
              (blockDepth (run filePath 0 pre locals_init)
               + (if contains (chr "{") ln then 1 else 0)
               - (if contains (chr "}") ln then 1 else 0)) 0); [|lia].
  repeat split. exact Hle.
Qed.

(** After [function f() // }] the depth is -1; [function g() {] then opens
    no block and the assignment in its body is reported. *)
Lemma opener_at_negative_depth_is_not_tracked_witness :
  (inFunctionOrClass
     (after_line "a.js" [js "function f() // }"] (js "function g() {"))
     = false /\
   (blockDepth
      (after_line "a.js" [js "function f() // }"] (js "function g() {"))
    <= 0)%Z /\
   findings
     (after_line "a.js" [js "function f() // }"] (js "function g() {"))
     = []) /\
  map line (scan "a.js" [js "function f() // }"; js "function g() {";
                         js "  window.x = 1;"; js "}"]) = [3].
Proof.
  split; [|vm_compute; reflexivity].
  apply (opener_at_negative_depth_is_not_tracked "a.js"
           [js "function f() // }"] (js "function g() {"));
    vm_compute; reflexivity.
Defined.


(* ------------------------------------------------------------------ *)
(** ** Line comments after white space *)

Lemma dropWhile_prefix (p : char -> bool) (sp : jsstring) (x : char)
    (t : jsstring) :
  forallb p sp = true -> p x = false ->
  dropWhile p (sp ++ x :: t) = x :: t.
Proof.
  intros Hsp Hx. induction sp as [|c sp IH]; simpl.
  - now rewrite Hx.
  - simpl in Hsp. apply andb_prop in Hsp. destruct Hsp as [-> Hsp].
    now apply IH.
Qed.

Lemma dropWhile_all (p : char -> bool) (sp : jsstring) :
  forallb p sp = true -> dropWhile p sp = [].
Proof.
  induction sp as [|c sp IH]; simpl; [reflexivity|].
  intros H. apply andb_prop in H. destruct H as [-> H]. now apply IH.
Qed.

(** What [\s*] consumes is white space. *)
Lemma star_ws_inv (i : bool) (p : option char) (s : jsstring)
    (p' : option char) (s' : jsstring) :
  matches i (Star ws) p s p' s' ->
  exists sp, s = sp ++ s' /\ forallb isWhiteSpace sp = true.
Proof.
  intros M. remember (Star ws) as r eqn:Er.
  induction M; try discriminate Er.
  - exists []. split; reflexivity.
  - injection Er as ->. destruct (IHM2 eq_refl) as (sp & -> & Hsp).
    inversion M1 as [| | |items c q t Hc| | | | | | | |]; subst.
    exists (c :: sp). split; [reflexivity|]. simpl. rewrite Hsp.
    unfold class_matches in Hc. simpl in Hc. rewrite orb_false_r in Hc.
    now rewrite Hc.
Qed.

Lemma not_matched_anchored (r : regex) (ln : jsstring) :
  anchored r ->
  (forall p' s', ~ matches false r None ln p' s') ->
  RegExp.test_fresh (RegExp.literal r false) ln = false.
Proof.
  intros Hr Hno. apply test_fresh_anchored; [exact Hr|].
  destruct (match_here false r None ln) eqn:E; [|reflexivity].
  exfalso.
  assert (H : match_here false r None ln <> None) by congruence.
  apply match_here_iff in H. destruct H as (p' & s' & M).
  exact (Hno p' s' M).
Qed.

Lemma trim_indented (indent : jsstring) (c1 c2 : char) (t : jsstring) :
  forallb isWhiteSpace indent = true ->
  isWhiteSpace c1 = false -> isWhiteSpace c2 = false ->
  trim (indent ++ c1 :: c2 :: t) =
  c1 :: c2 :: rev (dropWhile isWhiteSpace (rev t)).
Proof.
  intros Hi H1 H2. unfold trim.
  rewrite (dropWhile_prefix isWhiteSpace indent c1 (c2 :: t) Hi H1).
  simpl rev. rewrite !dropWhile_snoc by assumption.
  rewrite !rev_app_distr. reflexivity.
Qed.

(** A line comment that stands after white space matches no ignore
    pattern. *)
Lemma indented_comment_not_ignored (indent rest : jsstring) :
  indent <> [] ->
  forallb isWhiteSpace indent = true ->
  ignored (indent ++ js "//" ++ rest) = false.
Proof.
  intros Hne Hws.
  unfold ignored, matches_any, IGNORE_PATTERNS_init. cbn [existsb].
  repeat match goal with
  | |- context [RegExp.test_fresh (RegExp.literal ?r false) ?l] =>
      rewrite (not_matched_anchored r l);
      [ | intros ? ? ? ?; reflexivity | ]
  end; [reflexivity | ..].
  all: intros p' s' M.
  all: match type of M with
       | matches _ ?r _ _ _ _ =>
           let r' := eval vm_compute in r in change r with r' in M
       end.
  all: change (js "//" ++ rest) with (47%N :: 47%N :: rest) in M.
  all: invert_matches.
  all: try match goal with
       | H : matches _ (Star _) _ _ _ _ |- _ =>
           apply star_ws_inv in H; destruct H as (sp & Hln & Hsp)
       end.
  all: char_facts.
  all: try (apply (f_equal (dropWhile isWhiteSpace)) in Hln;
            pose proof
              (eq_trans
                 (eq_sym (dropWhile_prefix isWhiteSpace indent 47%N
                            (47%N :: rest) Hws eq_refl)) Hln) as Hx;
            match type of Hln with
            | _ = dropWhile _ (?l ++ ?x :: ?t) =>
                pose proof
                  (eq_trans Hx
                     (dropWhile_prefix isWhiteSpace l x t Hsp eq_refl))
                  as Hy
            | _ = dropWhile _ (?l ++ []) =>
                pose proof
                  (eq_trans Hx
                     (eq_trans
                        (f_equal (dropWhile isWhiteSpace) (app_nil_r l))
                        (dropWhile_all isWhiteSpace l Hsp)))
                  as Hy
            end;
            discriminate Hy).
  all: destruct indent as [|w0 indent']; [congruence|].
  all: simpl in Hws; apply andb_prop in Hws; destruct Hws as [Hw0 _].
  all: match goal with
       | H : (_ :: _) ++ _ = _ :: _ |- _ => injection H as -> _
       | H : _ :: _ = (_ :: _) ++ _ |- _ => injection H as <- _
       end.
  all: discriminate Hw0.
Qed.

(** X12.  A line comment that stands after white space is not ignored: no
    ignore pattern matches it and it is no opener, so outside a block it is
    tested against the side-effect patterns like any statement, and
    commented-out code that matches one is reported. *)
Theorem indented_line_comment_is_scanned (filePath : string) (i : nat)
    (st : Locals) (indent rest : jsstring) :
  indent <> [] ->
  forallb isWhiteSpace indent = true ->
  inFunctionOrClass st = false ->
  ignored (indent ++ js "//" ++ rest) = false /\
  tracked st (indent ++ js "//" ++ rest) = false /\
  findings (step filePath i (indent ++ js "//" ++ rest) st) =
    findings st ++
    (if flagged (indent ++ js "//" ++ rest)
     then [finding_for filePath i (indent ++ js "//" ++ rest)] else []).
Proof.
  intros Hne Hws Hst.
  pose proof (indented_comment_not_ignored indent rest Hne Hws) as I.
  assert (T : tracked st (indent ++ js "//" ++ rest) = false).
  { apply tracked_false. split; [|exact Hst].
    assert (E : trim (indent ++ js "//" ++ rest) =
                47%N :: 47%N :: rev (dropWhile isWhiteSpace (rev rest)))
      by exact (trim_indented indent 47%N 47%N rest Hws eq_refl eq_refl).
    rewrite E. unfold opener. apply test_fresh_anchored;
      [intros ? ? ? ?; reflexivity | vm_compute; reflexivity]. }
  split; [exact I|]. split; [exact T|].
  rewrite step_findings, T, I. reflexivity.
Qed.

Lemma indented_line_comment_is_scanned_witness :
  ignored (js "  " ++ js "//" ++ js " window.x = 1;") = false /\
  tracked locals_init (js "  " ++ js "//" ++ js " window.x = 1;") = false /\
  findings (step "a.js" 0 (js "  " ++ js "//" ++ js " window.x = 1;")
              locals_init) =
    [] ++
    (if flagged (js "  " ++ js "//" ++ js " window.x = 1;")
     then [finding_for "a.js" 0 (js "  " ++ js "//" ++ js " window.x = 1;")]
     else []).
Proof.
  apply (indented_line_comment_is_scanned "a.js" 0 locals_init
           (js "  ") (js " window.x = 1;")).
  - discriminate.
  - reflexivity.
  - reflexivity.
Defined.

(** In that example the comment is reported, while the same comment at the
    start of the line is not. *)
Example indented_comment_reported :
  map line (scan "a.js" [js "  // window.x = 1;"]) = [1] /\
  scan "a.js" [js "// window.x = 1;"] = [].
Proof. split; vm_compute; reflexivity. Qed.

(* ------------------------------------------------------------------ *)
(** ** Collecting the files *)

Lemma list_ascii_of_string_app (a b : string) :
  list_ascii_of_string (a ++ b) =
  list_ascii_of_string a ++ list_ascii_of_string b.
Proof.
  induction a as [|c a IH]; simpl; [reflexivity | now rewrite IH].
Qed.

(** [endsWith] holds exactly when the string is some text followed by the
    suffix. *)
Lemma endsWith_iff (s suffix : string) :
  endsWith s suffix = true <-> exists pre, s = (pre ++ suffix)%string.
Proof.
  unfold endsWith. split.
  - destruct (Nat.ltb_spec (length (list_ascii_of_string s))
                (length (list_ascii_of_string suffix))); [discriminate|].
    destruct (list_eq_dec _ _ _) as [E|]; [|discriminate]. intros _.
    exists (string_of_list_ascii
              (firstn (length (list_ascii_of_string s)
                       - length (list_ascii_of_string suffix))
                 (list_ascii_of_string s))).
    rewrite <- (string_of_list_ascii_of_string s) at 1.
    rewrite <- (string_of_list_ascii_of_string
                  (string_of_list_ascii _ ++ suffix)).
    f_equal. rewrite list_ascii_of_string_app,
      list_ascii_of_string_of_list_ascii.
    etransitivity; [symmetry; apply firstn_skipn|].
    f_equal. exact E.
  - intros (pre & ->). rewrite list_ascii_of_string_app, length_app.
    destruct (Nat.ltb_spec
                (length (list_ascii_of_string pre)
                 + length (list_ascii_of_string suffix))
                (length (list_ascii_of_string suffix))); [lia|].
    replace (length (list_ascii_of_string pre)
             + length (list_ascii_of_string suffix)
             - length (list_ascii_of_string suffix))
      with (length (list_ascii_of_string pre) + 0) by lia.
    rewrite skipn_app, skipn_all2 by lia.
    replace (length (list_ascii_of_string pre) + 0
             - length (list_ascii_of_string pre)) with 0 by lia.
    simpl. destruct (list_eq_dec _ _ _); [reflexivity | congruence].
Qed.

Lemma is_source_iff (name : string) :
  is_source name = true <->
  exists pre, name = (pre ++ ".js")%string \/ name = (pre ++ ".ts")%string.
Proof.
  unfold is_source. rewrite orb_true_iff, !endsWith_iff. split.
  - intros [(pre & H)|(pre & H)]; exists pre; tauto.
  - intros (pre & [H|H]); [left | right]; now exists pre.
Qed.

Lemma Entry_induction (P : Entry -> Prop) :
  P EFile ->
  (forall entries,
     Forall (fun ne => P (snd ne)) entries -> P (EDir entries)) ->
  forall e, P e.
Proof.
  intros Hfile Hdir. fix IH 1. intros [|entries]; [exact Hfile|].
  apply Hdir. induction entries as [|[name child] es IHes]; constructor.
  - apply IH.
  - exact IHes.
Qed.

Lemma walk_loop_flat (join : string -> string -> string)
    (rec : string -> Entry -> list string) (dir : string)
    (es : list (string * Entry)) :
  forall results,
    walk_loop join rec dir es results =
    results ++ flat_map (visit join rec dir) es.
Proof.
  induction es as [|[name child] es IH]; intros results; simpl.
  - now rewrite app_nil_r.
  - unfold visit at 1. simpl. destruct child as [|sub].
    + destruct (is_source name); rewrite IH; [|reflexivity].
      now rewrite <- app_assoc.
    + rewrite IH. now rewrite <- app_assoc.
Qed.

Lemma reaches_file_nil (names : list string) (e : Entry) :
  reaches EFile names e -> names = [] /\ e = EFile.
Proof. inversion 1; subst; split; reflexivity. Qed.

(** The paths that the walk of a directory returns are the joined paths of
    the files below it whose name passes the test of line 63. *)
Lemma walk_spec (join : string -> string -> string) (e : Entry) :
  forall dir p,
    In p (walk join dir e) <->
    exists names name,
      reaches e (names ++ [name]) EFile /\
      is_source name = true /\
      p = fold_left join (names ++ [name]) dir.
Proof.
  induction e as [|entries IH] using Entry_induction; intros dir p.
  - simpl. split; [contradiction|].
    intros (names & name & R & _). apply reaches_file_nil in R.
    destruct R as [R _]. destruct names; discriminate R.
  - simpl. rewrite walk_loop_flat. simpl. rewrite in_flat_map.
    rewrite Forall_forall in IH. split.
    + intros ([name child] & Hin & Hp). unfold visit in Hp. simpl in Hp.
      destruct child as [|sub].
      * destruct (is_source name) eqn:S; [|contradiction].
        destruct Hp as [<-|[]]. exists [], name. simpl.
        split; [|tauto]. eapply reaches_down; [exact Hin | constructor].
      * apply (IH _ Hin) in Hp. destruct Hp as (names & n & R & S & ->).
        exists (name :: names), n. simpl.
        split; [|tauto]. eapply reaches_down; eassumption.
    + intros (names & n & R & S & ->).
      inversion R as [|es name child rest e' Hin R' E1 E2 E3].
      clear E1 E3 R.
      exists (name, child). split; [exact Hin|]. unfold visit. simpl.
      destruct child as [|sub].
      * apply reaches_file_nil in R'. destruct R' as [-> _].
        destruct names as [|n0 names]; simpl in E2.
        -- injection E2 as ->. rewrite S. now left.
        -- injection E2 as _ E2. destruct names; discriminate E2.
      * destruct names as [|n0 names]; simpl in E2.
        -- injection E2 as _ ->. inversion R'.
        -- injection E2 as -> ->.
           apply (IH (n0, EDir sub) Hin (join dir n0)).
           exists names, n. tauto.
Qed.

(** X15.  [getAllFiles] returns exactly the paths of the files, at any depth
    below the directory, whose name ends in .js or .ts, each path built by
    joining the names on the way down; a directory is descended into
    whatever its name, and a missing directory gives no path. *)
Theorem getAllFiles_returns_the_source_files
    (join : string -> string -> string) (dir : string)
    (node : option Entry) (files : list string) (p : string) :
  getAllFiles join dir node = Some files ->
  (In p files <->
   exists entries names name pre,
     node = Some (EDir entries) /\
     reaches (EDir entries) (names ++ [name]) EFile /\
     (name = (pre ++ ".js")%string \/ name = (pre ++ ".ts")%string) /\
     p = fold_left join (names ++ [name]) dir).
Proof.
  intros H. destruct node as [[|entries]|]; unfold getAllFiles in H.
  - discriminate.
  - injection H as <-.
    pose proof (walk_spec join (EDir entries) dir p) as W. split.
    + intros X. apply W in X. destruct X as (names & name & R & S & ->).
      apply is_source_iff in S. destruct S as (pre & S).
      exists entries, names, name, pre. tauto.
    + intros (es & names & name & pre & E & R & S & ->).
      injection E as <-. apply W. exists names, name.
      split; [exact R|]. split; [|reflexivity].
      apply is_source_iff. now exists pre.
  - injection H as <-. split; [contradiction|].
    intros (es & names & name & pre & E & _). discriminate.
Qed.

Lemma getAllFiles_returns_the_source_files_witness :
  let join := fun a b => (a ++ "/" ++ b)%string in
  let tree :=
    EDir [("a.js", EFile); ("notes.txt", EFile);
          ("old.js", EDir [("b.ts", EFile); ("c.jsx", EFile)])]%string in
  In "src/old.js/b.ts"%string ["src/a.js"; "src/old.js/b.ts"]%string <->
  exists entries names name pre,
    Some tree = Some (EDir entries) /\
    reaches (EDir entries) (names ++ [name]) EFile /\
    (name = (pre ++ ".js")%string \/ name = (pre ++ ".ts")%string) /\
    "src/old.js/b.ts"%string = fold_left join (names ++ [name]) "src"%string.
Proof.
  apply (getAllFiles_returns_the_source_files
           (fun a b => (a ++ "/" ++ b)%string) "src"
           (Some (EDir [("a.js", EFile); ("notes.txt", EFile);
                        ("old.js", EDir [("b.ts", EFile); ("c.jsx", EFile)])]
                   %string))).
  reflexivity.
Defined.

(* ------------------------------------------------------------------ *)
(** ** The report and the run of the script *)

Lemma report_loop_app (fs : list Finding) :
  forall report,
    report_loop fs report = report ++ flat_map report_block fs.
Proof.
  induction fs as [|f fs IH]; intros report; simpl.
  - now rewrite app_nil_r.
  - rewrite IH. now rewrite <- app_assoc.
Qed.

Lemma flat_map_nil_iff (A B : Type) (g : A -> list B) (l : list A) :
  flat_map g l = [] <-> Forall (fun a => g a = []) l.
Proof.
  induction l as [|a l IH]; simpl.
  - split; [constructor | reflexivity].
  - split.
    + intros H. apply app_eq_nil in H. destruct H as [Ha Hl].
      constructor; [exact Ha | now apply IH].
    + intros H. inversion H as [|? ? Ha Hl]; subst.
      rewrite Ha. now apply IH.
Qed.

Lemma main_init (dirs : list (list File)) :
  main dirs module_init =
  (output_of (flat_map (fun f => scan (fst f) (snd f)) (concat dirs)),
   module_init).
Proof.
  unfold main, main_findings, bind, ret. rewrite for_dirs_init. reflexivity.
Qed.

(** X16.  [main] prints and writes 'No top-level side effects detected.'
    exactly when no file it scanned has a finding; otherwise what it prints
    and what it writes is the same report. *)
Theorem clean_message_iff_no_findings (dirs : list (list File)) :
  (report_file (fst (main dirs module_init)) = no_findings_message ++ [LF]
   <-> Forall (fun f => scan (fst f) (snd f) = []) (concat dirs)) /\
  (console (fst (main dirs module_init)) = no_findings_message
   <-> Forall (fun f => scan (fst f) (snd f) = []) (concat dirs)) /\
  (~ Forall (fun f => scan (fst f) (snd f) = []) (concat dirs) ->
   console (fst (main dirs module_init)) =
   report_file (fst (main dirs module_init))).
Proof.
  rewrite main_init. simpl fst. rewrite <- flat_map_nil_iff.
  unfold output_of.
  destruct (flat_map (fun f => scan (fst f) (snd f)) (concat dirs))
    as [|f fs]; simpl length; simpl Nat.eqb; cbv iota.
  - simpl. repeat split; try reflexivity. intros H. now contradiction H.
  - simpl console. simpl report_file. rewrite report_loop_app.
    repeat split; discriminate.
Qed.



(** X18.  When none of the entries of [UTILS_DIRS] exists, the script
    reports that nothing was found. *)
Theorem program_without_directories (join : string -> string -> string)
    (root : string -> option Entry) (read : string -> jsstring) :
  (forall dir, In dir UTILS_DIRS -> root dir = None) ->
  program join root read =
  Some {| console := no_findings_message;
          report_file := no_findings_message ++ [LF] |}.
Proof.
  intros H. unfold program, UTILS_DIRS, files_of_dirs, getAllFiles.
  rewrite !H by (simpl; tauto). reflexivity.
Qed.

Lemma program_without_directories_witness :
  program (fun a b => (a ++ "/" ++ b)%string) (fun _ => None) (fun _ => []) =
  Some {| console := no_findings_message;
          report_file := no_findings_message ++ [LF] |}.
Proof.
  apply (program_without_directories
           (fun a b => (a ++ "/" ++ b)%string) (fun _ => None) (fun _ => [])).
  reflexivity.
Defined.
